(** * Thematic analysis pipeline: batching, reduction and row analysis

    A shallow embedding of [thematic-batches.py] (class [ThematicAnalyzer])
    and [categorymaker.py] (class [FeedbackAnalyzer]), with the properties
    of the batching policies, the pairwise reduction loop, the retry loop
    and the text clean-up that the specification states.

    Conventions of the embedding.
    - A Python [str] is a [string]; a character is a code point below 256.
    - A Python [int] is a [Z].
    - A spreadsheet cell is an [option string]: [None] is the missing value
      (NaN) that [pd.notna] rejects, [Some t] a cell holding the text [t].
    - The remote service is an oracle that sees the whole history of the
      run; a method that talks to it is a computation over the event trace
      that either returns a value or raises.
    - Console output ([print]) is not part of the trace. *)

From Stdlib Require Import String Ascii List ZArith Lia Bool Arith.
Import ListNotations.
Open Scope string_scope.
Open Scope list_scope.

(* ================================================================= *)
(** ** Python string primitives *)

Module PyStr.

(** [str.isspace] on one character.  Below 256 the white-space code
    points are 9-13, 28-32, 133 and 160; [str.strip] and the regular
    expression class [\s] use this same set. *)
Definition isspace (c : ascii) : bool :=
  let n := nat_of_ascii c in
  (((9 <=? n) && (n <=? 13)) || ((28 <=? n) && (n <=? 32))
   || (n =? 133) || (n =? 160))%nat.

Fixpoint lstrip (s : string) : string :=
  match s with
  | EmptyString => EmptyString
  | String c s' => if isspace c then lstrip s' else s
  end.

Fixpoint rstrip (s : string) : string :=
  match s with
  | EmptyString => EmptyString
  | String c s' =>
      match rstrip s' with
      | EmptyString => if isspace c then EmptyString else String c EmptyString
      | r => String c r
      end
  end.

(** [s.strip()] *)
Definition strip (s : string) : string := rstrip (lstrip s).

(** [s[n:]] *)
Fixpoint drop (n : nat) (s : string) : string :=
  match n, s with
  | S k, String _ s' => drop k s'
  | _, _ => s
  end.

(** Push a character in front of the first field of a split. *)
Definition cons_head (c : ascii) (l : list string) : list string :=
  match l with
  | [] => [String c EmptyString]
  | h :: t => String c h :: t
  end.

(** [s.split(sep, maxsplit)] for a non-empty [sep], scanning from the
    left: [skip] counts the characters of a separator just matched that
    are still to be passed over; [maxsplit = None] is Python's default
    (no limit). *)
Fixpoint split_from (sep : string) (maxsplit : option nat) (skip : nat)
    (s : string) {struct s} : list string :=
  match s with
  | EmptyString => [EmptyString]
  | String c s' =>
      match skip with
      | S k => split_from sep maxsplit k s'
      | O =>
          match maxsplit with
          | Some O => [s]
          | _ =>
              if prefix sep s
              then EmptyString
                   :: split_from sep (option_map Nat.pred maxsplit)
                        (String.length sep - 1) s'
              else cons_head c (split_from sep maxsplit 0 s')
          end
      end
  end.

(** [s.split(sep)] *)
Definition split (sep s : string) : list string := split_from sep None 0 s.

(** [s.split(sep, n)] *)
Definition split_max (sep : string) (n : nat) (s : string) : list string :=
  split_from sep (Some n) 0 s.

(** [l[-1]] on the result of a split, which is never empty. *)
Definition last_field (l : list string) : string := last l EmptyString.

(** Replacement of every left-most, non-overlapping match by [repl]:
    [matcher s] is the length of the match that starts at the head of [s],
    if there is one.  Both [re.sub] (for patterns that match no empty
    string) and [str.replace] are instances. *)
Fixpoint sub_from (matcher : string -> option nat) (repl : string)
    (skip : nat) (s : string) {struct s} : string :=
  match s with
  | EmptyString => EmptyString
  | String c s' =>
      match skip with
      | S k => sub_from matcher repl k s'
      | O =>
          match matcher s with
          | Some (S k) => (repl ++ sub_from matcher repl k s')%string
          | _ => String c (sub_from matcher repl 0 s')
          end
      end
  end.

Definition literal (old : string) (s : string) : option nat :=
  if prefix old s then Some (String.length old) else None.

(** [s.replace(old, new)] *)
Definition replace (old new s : string) : string :=
  sub_from (literal old) new 0 s.

(** The pattern [\s+]: the longest run of white space at the head. *)
Fixpoint space_run (s : string) : nat :=
  match s with
  | String c s' => if isspace c then S (space_run s') else 0
  | EmptyString => 0
  end.

Definition spaces (s : string) : option nat :=
  match space_run s with
  | O => None
  | n => Some n
  end.

(** Every character of [s] satisfies [p]. *)
Fixpoint all_chars (p : ascii -> bool) (s : string) : bool :=
  match s with
  | EmptyString => true
  | String c s' => p c && all_chars p s'
  end.

Definition not_char (c : ascii) : ascii -> bool :=
  fun a => negb (Ascii.eqb a c).

(** All white space is the plain space character. *)
Definition plain_space (a : ascii) : bool :=
  negb (isspace a) || Ascii.eqb a " ".

(** No two white-space characters are next to each other. *)
Fixpoint single_spaced (s : string) : bool :=
  match s with
  | EmptyString => true
  | String a t =>
      match t with
      | String b _ => negb (isspace a && isspace b)
      | EmptyString => true
      end && single_spaced t
  end.

End PyStr.

(* ================================================================= *)
(** ** Computations over an event trace *)

Module Run.

(** The exceptions that the modelled code can meet. *)
Inductive exn :=
| IndexError
| AttributeError
| ServiceError.

Inductive outcome (A : Type) :=
| Returned (a : A)
| Raised (e : exn).
Arguments Returned {A} a.
Arguments Raised {A} e.

(** A computation reads the trace of the events so far (oldest first),
    extends it, and returns or raises. *)
Definition M (E A : Type) : Type := list E -> outcome A * list E.

Definition ret {E A} (a : A) : M E A := fun tr => (Returned a, tr).

Definition raise {E A} (e : exn) : M E A := fun tr => (Raised e, tr).

Definition bind {E A B} (m : M E A) (k : A -> M E B) : M E B :=
  fun tr =>
    match m tr with
    | (Returned a, tr') => k a tr'
    | (Raised e, tr') => (Raised e, tr')
    end.

Definition emit {E} (ev : E) : M E unit := fun tr => (Returned tt, tr ++ [ev]).

(** [try: m  except Exception as e: handler e] *)
Definition try_except {E A} (m : M E A) (handler : exn -> M E A) : M E A :=
  fun tr =>
    match m tr with
    | (Returned a, tr') => (Returned a, tr')
    | (Raised e, tr') => handler e tr'
    end.

(** [for x in l: acc = body acc x] *)
Fixpoint for_each {E A B} (body : B -> A -> M E B) (l : list A) (acc : B)
    : M E B :=
  match l with
  | [] => ret acc
  | x :: l' => bind (body acc x) (for_each body l')
  end.

Module Notations.
Notation "x <- m ;; k" := (bind m (fun x => k))
  (at level 61, m at next level, right associativity).
Notation "m ;;; k" := (bind m (fun _ => k))
  (at level 61, right associativity).
End Notations.

End Run.

(* ================================================================= *)
(** ** thematic-batches.py: [ThematicAnalyzer] *)

Module Thematic.
Import PyStr Run Run.Notations.

Definition batch := list string.

(** [[cat.strip() for cat in text.split(';') if cat.strip()]] *)
Definition parse_categories (text : string) : batch :=
  flat_map
    (fun cat => match strip cat with
                | EmptyString => []
                | t => [t]
                end)
    (split ";" text).

(** The three loop variables of [collect_categories]. *)
Record collector := Collector {
  batches : list batch;
  current_batch : batch;
  current_count : Z
}.

Definition start : collector := Collector [] [] 0.

(** [batches.append(current_batch); current_batch = []; current_count = 0] *)
Definition close_batch (st : collector) : collector :=
  Collector (batches st ++ [current_batch st]) [] 0.

(** Body of the loop of the ['rows'] branch, for one row of the column. *)
Definition rows_step (max_batch_size : Z) (st : collector)
    (cell : option string) : collector :=
  match cell with
  | None => st
  | Some text =>
      let categories := parse_categories text in
      let st := if current_count st >=? max_batch_size
                then close_batch st else st in
      Collector (batches st) (current_batch st ++ categories)
        (current_count st + 1)
  end%Z.

(** Body of the loop of the [else] branch (batching by categories). *)
Definition categories_step (max_batch_size : Z) (st : collector)
    (cell : option string) : collector :=
  match cell with
  | None => st
  | Some text =>
      let categories := parse_categories text in
      let st := if current_count st + Z.of_nat (length categories)
                   >? max_batch_size
                then close_batch st else st in
      Collector (batches st) (current_batch st ++ categories)
        (current_count st + Z.of_nat (length categories))
  end%Z.

(** [if current_batch: batches.append(current_batch)] *)
Definition finish (st : collector) : list batch :=
  match current_batch st with
  | [] => batches st
  | _ => batches st ++ [current_batch st]
  end.

(** [collect_categories(df, column_name)], on the cells of the column in
    row order, with the two configuration values it reads. *)
Definition collect_categories (batch_by : string) (max_batch_size : Z)
    (column : list (option string)) : list batch :=
  let step := if (batch_by =? "rows")%string
              then rows_step max_batch_size
              else categories_step max_batch_size in
  finish (fold_left step column start).

(** The rows that take part in the batching: the parsed categories of
    every cell that holds a value, in row order. *)
Definition parsed_rows (column : list (option string)) : list batch :=
  flat_map (fun cell => match cell with
                        | Some text => [parse_categories text]
                        | None => []
                        end) column.

(** A batch respects the limit, or is one row of [column] that is larger
    than the limit on its own. *)
Definition bounded_or_single_row (max : Z)
    (column : list (option string)) (b : batch) : Prop :=
  (Z.of_nat (length b) <= max)%Z
  \/ exists text, In (Some text) column
                  /\ b = parse_categories text
                  /\ (max < Z.of_nat (length b))%Z.

(** The rows seen so far split into closed groups of exactly [max] rows
    and a current group; the closed batches and the current batch are
    the concatenations of these groups. *)
Definition rows_grouped (max : Z) (pre : list (option string))
    (st : collector) : Prop :=
  exists (full : list (list batch)) (tail : list batch),
    parsed_rows pre = concat full ++ tail
    /\ Forall (fun g => Z.of_nat (length g) = max) full
    /\ (Z.of_nat (length tail) <= max)%Z
    /\ (parsed_rows pre <> [] -> tail <> [])
    /\ batches st = map (@concat string) full
    /\ current_batch st = concat tail
    /\ current_count st = Z.of_nat (length tail).

(** A row of [n] categories. *)
Fixpoint row_of (n : nat) : string :=
  match n with
  | O => EmptyString
  | S k => String "a" (String ";" (row_of k))
  end.

(** A batch that is not empty and within the limit. *)
Definition proper_batch (max : Z) (b : batch) : Prop :=
  b <> [] /\ (Z.of_nat (length b) <= max)%Z.

(** What can be observed of a run of [iterative_aggregation]. *)
Inductive event :=
| Analysis (categories : batch) (category_type : string)
    (is_aggregation : bool)
| SaveIteration (iteration : Z) (categories : list batch) (column : string)
| SaveFinal (column : string) (final_analysis : string).

Inductive reply :=
| Text (text : string)
| Fails (e : exn).

(** The service behind [get_analysis_from_claude]: from the history of
    the run and the arguments of the call, the text of the first content
    block of the response, or the exception of a failed call.  The prompt
    templates, the model and its parameters are configuration that only
    the service sees. *)
Definition service : Type :=
  list event -> batch -> string -> bool -> reply.

Record config := Config {
  max_batch_size : Z;
  batch_by : string
}.

Section Analyzer.

Variable client : service.
Variable cfg : config.

(** [get_analysis_from_claude(categories, category_type, is_aggregation)]:
    one attempt, whose exception reaches the caller. *)
Definition get_analysis_from_claude (categories : batch)
    (category_type : string) (is_aggregation : bool) : M event string :=
  fun tr =>
    let tr' := tr ++ [Analysis categories category_type is_aggregation] in
    match client tr categories category_type is_aggregation with
    | Text text => (Returned text, tr')
    | Fails e => (Raised e, tr')
    end.

(** [save_intermediate_results(iteration, categories, column)] *)
Definition save_intermediate_results (iteration : Z)
    (categories : list batch) (column : string) : M event unit :=
  emit (SaveIteration iteration categories column).

(** [range(0, n, 2)] *)
Definition range_by_two (n : nat) : list nat :=
  map (fun k => 2 * k) (seq 0 (Nat.div2 (n + 1))).

(** Body of [for i in range(0, len(categories), 2)]. *)
Definition merge_step (category_type : string) (categories : list batch)
    (new_categories : list batch) (i : nat) : M event (list batch) :=
  if (i + 1 <? length categories)%nat
  then
    let merged_batch := nth i categories [] ++ nth (i + 1) categories [] in
    analysis <- get_analysis_from_claude merged_batch category_type false ;;
    ret (new_categories ++ [split ";" analysis])
  else ret (new_categories ++ [nth i categories []]).

(** One pass of the body of the [while] loop, up to the assignment
    [categories = new_categories]. *)
Definition merge_round (category_type : string) (categories : list batch)
    : M event (list batch) :=
  for_each (merge_step category_type categories)
    (range_by_two (length categories)) [].

(** The same round by recursion on the list, two batches at a time
    (lemma [merge_round_pairs]). *)
Fixpoint merge_pairs (category_type : string) (categories : list batch)
    : M event (list batch) :=
  match categories with
  | a :: b :: rest =>
      analysis <- get_analysis_from_claude (a ++ b) category_type false ;;
      merged <- merge_pairs category_type rest ;;
      ret (split ";" analysis :: merged)
  | [a] => ret [a]
  | [] => ret []
  end.

(** [while len(categories) > 1: ...], returning the loop variables
    [categories] and [iteration].  A round turns [n] batches into
    [ceil(n/2)], so [len(categories)] rounds are always enough
    (lemma [reduction_loop_fuel]). *)
Fixpoint reduction_loop (fuel : nat) (column category_type : string)
    (categories : list batch) (iteration : Z)
    : M event (list batch * Z) :=
  match fuel with
  | O => ret (categories, iteration)
  | S fuel' =>
      if (1 <? length categories)%nat
      then
        new_categories <- merge_round category_type categories ;;
        save_intermediate_results iteration new_categories column ;;;
        reduction_loop fuel' column category_type new_categories
          (iteration + 1)%Z
      else ret (categories, iteration)
  end.

(** [l[0]] *)
Definition item0 {A} (l : list A) : M event A :=
  match l with
  | [] => raise IndexError
  | x :: _ => ret x
  end.

(** The part of [iterative_aggregation] that follows the call of
    [collect_categories] (the specification's [reduce]): the loop, the
    final aggregation call on [categories[0]] and the final file. *)
Definition reduce (categories : list batch) (column category_type : string)
    : M event unit :=
  st <- reduction_loop (length categories) column category_type
          categories 1%Z ;;
  first <- item0 (fst st) ;;
  final_analysis <- get_analysis_from_claude first category_type true ;;
  emit (SaveFinal column final_analysis).

(** [iterative_aggregation(df, column, category_type)], [cells] being the
    cells of [df[column]] in row order. *)
Definition iterative_aggregation (cells : list (option string))
    (column category_type : string) : M event unit :=
  reduce (collect_categories (batch_by cfg) (max_batch_size cfg) cells)
    column category_type.

End Analyzer.

(** The service answers every analysis call of a merge. *)
Definition answers (client : service) : Prop :=
  forall tr categories category_type,
    exists text, client tr categories category_type false = Text text.

(** The number of rounds a trace records: one intermediate file per
    round. *)
Definition rounds (tr : list event) : nat :=
  length (filter (fun ev => match ev with
                            | SaveIteration _ _ _ => true
                            | _ => false
                            end) tr).

(** The number of service calls a trace records. *)
Definition service_calls (tr : list event) : nat :=
  length (filter (fun ev => match ev with
                            | Analysis _ _ _ => true
                            | _ => false
                            end) tr).

(* ----------------------------------------------------------------- *)
(** *** Further methods and vocabulary of [ThematicAnalyzer] *)

(** A category as [collect_categories] produces it: trimmed, not empty,
    and without the separator. *)
Definition well_formed (c : string) : Prop :=
  strip c = c /\ c <> EmptyString /\ all_chars (not_char ";") c = true.

(** ['; '.join(categories)], the rendering of a batch in the prompts and
    in the intermediate files. *)
Definition join_categories (categories : batch) : string :=
  String.concat "; " categories.

(** [len([cat for cat in analysis.split(';') if cat.strip()])] *)
Definition count_categories (analysis : string) : Z :=
  Z.of_nat
    (length (filter (fun cat => match strip cat with
                                | EmptyString => false
                                | _ => true
                                end) (split ";" analysis))).

Section Batches.

Variable client : service.

(** Body of the loop of [analyze_in_batches], on [all_analyses] and
    [total_categories]. *)
Definition analyze_step (category_type : string) (st : list string * Z)
    (batch : batch) : M event (list string * Z) :=
  analysis <- get_analysis_from_claude client batch category_type false ;;
  let batch_categories := count_categories analysis in
  ret (fst st ++ [analysis], (snd st + batch_categories)%Z).

(** [analyze_in_batches(categories, category_type)] *)
Definition analyze_in_batches (categories : list batch)
    (category_type : string) : M event (list string * Z) :=
  for_each (analyze_step category_type) categories ([], 0%Z).

End Batches.

(** An event is a call with the analysis template. *)
Definition merge_call (ev : event) : Prop :=
  match ev with
  | Analysis _ _ false => True
  | _ => False
  end.

(** The trace ends with a service call that failed with [e]. *)
Definition ends_with_failed_call (client : service) (tr' : list event)
    (e : exn) : Prop :=
  exists pre categories type is_aggregation,
    tr' = pre ++ [Analysis categories type is_aggregation]
    /\ client pre categories type is_aggregation = Fails e.

(** The service answers every call, merges and aggregation alike. *)
Definition answers_all (client : service) : Prop :=
  forall tr categories category_type is_aggregation,
    exists text,
      client tr categories category_type is_aggregation = Text text.

(** The calls of a trace with the analysis template
    ([is_aggregation = False]) and with the aggregation template. *)
Definition merge_calls (tr : list event) : nat :=
  length (filter (fun ev => match ev with
                            | Analysis _ _ false => true
                            | _ => false
                            end) tr).

Definition aggregation_calls (tr : list event) : nat :=
  length (filter (fun ev => match ev with
                            | Analysis _ _ true => true
                            | _ => false
                            end) tr).

(** The final files of a trace. *)
Definition final_files (tr : list event) : nat :=
  length (filter (fun ev => match ev with
                            | SaveFinal _ _ => true
                            | _ => false
                            end) tr).

(** The iteration numbers of the intermediate files of a trace, in the
    order of writing. *)
Definition saved_iterations (tr : list event) : list Z :=
  flat_map (fun ev => match ev with
                      | SaveIteration iteration _ _ => [iteration]
                      | _ => []
                      end) tr.

End Thematic.


(* ================================================================= *)
(** ** categorymaker.py: [FeedbackAnalyzer] *)

Module CategoryMaker.
Import PyStr Run Run.Notations.

(** The characters that Rocq's string syntax cannot hold directly. *)
Definition newline : string := String "010"%char EmptyString.
Definition double_quote : string := String "034"%char EmptyString.

(** The pattern of the first substitution of [clean_text],
    [\[?ContentBlock\(text='|'(?:, type='text')?\)\]?],
    as the length of its match at the head of [s].  The first alternative
    is an optional bracket and the opening marker; the second is a quote,
    the optional type annotation, a closing parenthesis and an optional
    bracket.  The optional parts are greedy, and giving one up never
    rescues a match: the character that follows differs. *)
Definition content_block (s : string) : option nat :=
  let found lit := Some (String.length lit) in
  if prefix "[ContentBlock(text='" s then found "[ContentBlock(text='"
  else if prefix "ContentBlock(text='" s then found "ContentBlock(text='"
  else if prefix "', type='text')]" s then found "', type='text')]"
  else if prefix "', type='text')" s then found "', type='text')"
  else if prefix "')]" s then found "')]"
  else if prefix "')" s then found "')"
  else None.

(** [clean_text(text)], for a [text] that is a [str] (any other value
    gives the empty string). *)
Definition clean_text (text : string) : string :=
  (* Remove ContentBlock formatting *)
  let text := sub_from content_block EmptyString 0 text in
  (* Replace escaped newlines with actual newlines *)
  let text := replace "\n" newline text in
  (* Remove any remaining backslashes *)
  let text := replace "\" EmptyString text in
  (* Replace multiple spaces with a single space *)
  let text := sub_from spaces " " 0 text in
  (* Remove any remaining quotes *)
  let text := replace "'" EmptyString (replace double_quote EmptyString text) in
  (* Strip leading/trailing whitespace *)
  strip text.

(** A row of the table: the cell under each column label. *)
Definition row := list (string * option string).

(** [row[col]] when [col in row.index and pd.notna(row[col])]; the cell
    holds the text that the f-string renders. *)
Definition field (r : row) (col : string) : option string :=
  match find (fun p => (fst p =? col)%string) r with
  | Some (_, Some v) => Some v
  | _ => None
  end.

Record config := Config {
  column_mapping : list (string * string);
  analysis_context : string;
  system_prompt : option string;
  primary_category : string;
  secondary_category : string
}.

Inductive event :=
| Create (system prompt : string)
| Sleep (seconds : Z).

(** A response carries the texts of its content blocks. *)
Inductive reply :=
| Response (content : list string)
| Fails (e : exn).

(** [client.messages.create] for the fixed model and parameters. *)
Definition service : Type := list event -> string -> string -> reply.

(** The two columns that [extract_elements] returns; their labels come
    from [primary_category] and [secondary_category]. *)
Record elements := Elements {
  primary : string;
  secondary : string
}.

Section Analyzer.

Variable client : service.
Variable cfg : config.

(** Body of the first loop of [process_row], on the prompt built so far
    and [has_data]. *)
Definition prompt_step (r : row) (st : string * bool)
    (m : string * string) : string * bool :=
  let (col, topic) := m in
  match field r col with
  | Some v => ((fst st ++ topic ++ ": " ++ v ++ newline)%string, true)
  | None => st
  end.

(** The first loop of [process_row]: the prompt and [has_data]. *)
Definition build_prompt (r : row) : string * bool :=
  fold_left (prompt_step r) (column_mapping cfg)
    ((analysis_context cfg ++ newline ++ newline)%string, false).

Definition has_data (r : row) : bool := snd (build_prompt r).

Definition system_text : string :=
  match system_prompt cfg with
  | Some t => t
  | None => "You are an expert in analyzing open-ended survey responses."
  end.

Definition create (prompt : string) : M event (list string) :=
  fun tr =>
    let tr' := tr ++ [Create system_text prompt] in
    match client tr system_text prompt with
    | Response content => (Returned content, tr')
    | Fails e => (Raised e, tr')
    end.

Definition sleep (seconds : Z) : M event unit := emit (Sleep seconds).

(** One pass of [for attempt in range(max_retries)]: [Some v] when the
    body executes [return v], [None] when it falls through to the next
    attempt. *)
Definition attempt_body (max_retries : Z) (prompt : string) (attempt : Z)
    : M event (option string) :=
  try_except
    (content <- create prompt ;;
     match content with
     | block :: _ => ret (Some (clean_text block))
     | [] => ret (Some "No content in response")
     end)
    (fun _ =>
       if (attempt <? max_retries - 1)%Z
       then sleep (2 ^ attempt)%Z ;;; ret None
       else ret (Some "Processing error")).

(** The [for] loop; [None] is Python's [None], the value of a function
    whose body ends without [return]. *)
Fixpoint attempts (max_retries : Z) (prompt : string) (range : list Z)
    : M event (option string) :=
  match range with
  | [] => ret None
  | attempt :: range' =>
      r <- attempt_body max_retries prompt attempt ;;
      match r with
      | Some v => ret (Some v)
      | None => attempts max_retries prompt range'
      end
  end.

(** [range(n)] *)
Definition range (n : nat) : list Z := map Z.of_nat (seq 0 n).

(** [process_row(row)] *)
Definition process_row (r : row) : M event (option string) :=
  let (prompt, has_data) := build_prompt r in
  if negb has_data then ret (Some "No input data")
  else
    let max_retries := 3 in
    attempts (Z.of_nat max_retries) prompt (range max_retries).

(** [part.split(':', 1)[-1].strip()] *)
Definition drop_label (part : string) : string :=
  strip (last_field (split_max ":" 1 part)).

(** [extract_elements(analysis)] *)
Definition extract_elements (analysis : string) : elements :=
  let parts := split "---" analysis in
  let primary := match parts with
                 | p :: _ => strip p
                 | [] => EmptyString
                 end in
  let secondary := match parts with
                   | _ :: p :: _ => strip p
                   | _ => EmptyString
                   end in
  Elements (drop_label primary) (drop_label secondary).

(** What [analyze_feedback] does for one row: [process_row], then
    [extract_elements] on its result; calling [split] on [None] raises
    [AttributeError]. *)
Definition analyzeRow (r : row) : M event elements :=
  analysis <- process_row r ;;
  match analysis with
  | Some text => ret (extract_elements text)
  | None => raise AttributeError
  end.

End Analyzer.

(** The number of service calls a trace records. *)
Definition service_calls (tr : list event) : nat :=
  length (filter (fun ev => match ev with
                            | Create _ _ => true
                            | _ => false
                            end) tr).

(** The number of failed service calls among the events [new] that
    follow the history [hist], replaying the service on each call. *)
Fixpoint failures (client : service) (hist new : list event) : nat :=
  match new with
  | [] => 0
  | ev :: rest =>
      match ev with
      | Create system prompt =>
          match client hist system prompt with
          | Fails _ => 1
          | Response _ => 0
          end
      | Sleep _ => 0
      end + failures client (hist ++ [ev]) rest
  end.

(** The row has a value under some mapped column. *)
Definition row_has_data (cfg : config) (r : row) : Prop :=
  exists col topic v, In (col, topic) (column_mapping cfg)
                      /\ field r col = Some v.

(** The row holds a value under the column of a mapping entry. *)
Definition holds_value (r : row) (m : string * string) : bool :=
  match field r (fst m) with
  | Some _ => true
  | None => false
  end.

(** [has_data] is set exactly when some mapped column holds a value. *)
(** The text that a response stands for. *)
Definition response_text (content : list string) : string :=
  match content with
  | block :: _ => clean_text block
  | [] => "No content in response"
  end.

(** The text after the first three steps of [clean_text]. *)
Definition unescaped (text : string) : string :=
  replace "\" EmptyString
    (replace "\n" newline (sub_from content_block EmptyString 0 text)).

(** A text without quotes and backslashes, whose white space is plain
    spaces, and without white space at either end. *)
Definition tidy (s : string) : Prop :=
  all_chars (not_char "'") s = true
  /\ all_chars (not_char "034") s = true
  /\ all_chars (not_char "\") s = true
  /\ all_chars plain_space s = true
  /\ strip s = s.

(** A tidy text with single spaces only: what [clean_text] aims at. *)
Definition normal (s : string) : Prop :=
  tidy s /\ single_spaced s = true.

(* ----------------------------------------------------------------- *)
(** *** The vocabulary of the specification of [extract_elements] *)

(** The words of the specification, on the library's [index] and
    [substring]: the text before the first occurrence of a separator
    (the whole text when there is none) and the text after it. *)
Definition before_first (sep s : string) : string :=
  match index 0 sep s with
  | Some n => substring 0 n s
  | None => s
  end.

Definition after_first (sep s : string) : option string :=
  match index 0 sep s with
  | Some n =>
      let start := n + String.length sep in
      Some (substring start (String.length s - start) s)
  | None => None
  end.

(** Everything up to and including the first colon is discarded. *)
Definition without_label (part : string) : string :=
  match after_first ":" part with
  | Some rest => rest
  | None => part
  end.

(** The text after the first colon, by recursion on the text. *)
Fixpoint after_colon (s : string) : option string :=
  match s with
  | EmptyString => None
  | String c s' => if ascii_dec ":" c then Some s' else after_colon s'
  end.

(* ----------------------------------------------------------------- *)
(** *** Further methods and vocabulary of [FeedbackAnalyzer] *)

(** The line of the prompt for one mapped column that holds a value. *)
Definition prompt_lines (r : row) (mapping : list (string * string))
    : list string :=
  flat_map (fun m : string * string =>
              match field r (fst m) with
              | Some v => [(snd m ++ ": " ++ v ++ newline)%string]
              | None => []
              end) mapping.

(** A text in the service's structured-content representation. *)
Definition content_block_of (body : string) : string :=
  ("[ContentBlock(text='" ++ body ++ "', type='text')]")%string.



Section Table.

Variable client : service.
Variable cfg : config.




End Table.


End CategoryMaker.

(* ================================================================= *)
(** * Properties *)

Import PyStr Run.

(** An invariant of a left fold that may mention the prefix of the list
    already folded. *)
Lemma fold_left_prefix_inv {A B : Type} (step : A -> B -> A)
    (P : list B -> A -> Prop) (init : A) (l : list B) :
  P [] init ->
  (forall pre x st, P pre st -> P (pre ++ [x]) (step st x)) ->
  P l (fold_left step l init).
Proof.
  intros Hinit Hstep.
  induction l as [|x l IH] using rev_ind.
  - exact Hinit.
  - rewrite fold_left_app. simpl. apply Hstep, IH.
Qed.

(* ----------------------------------------------------------------- *)
(** ** [collect_categories]: batching by categories *)

Section ByCategories.
Import Thematic.

Variable max : Z.

Lemma bounded_or_single_row_app column x b :
  bounded_or_single_row max column b ->
  bounded_or_single_row max (column ++ [x]) b.
Proof.
  intros [H | (text & Hin & Hb & Hlt)]; [now left | right].
  exists text. rewrite in_app_iff. auto.
Qed.

(** The counter is the length of the current batch, whatever the limit. *)
Lemma categories_count_is_length column :
  let st := fold_left (categories_step max) column start in
  current_count st = Z.of_nat (length (current_batch st)).
Proof.
  apply (fold_left_prefix_inv (categories_step max)
           (fun _ st => current_count st
                        = Z.of_nat (length (current_batch st)))).
  - reflexivity.
  - intros _ [text|] st Hst; simpl; [|exact Hst].
    destruct (_ >? max)%Z; simpl; rewrite ?length_app; lia.
Qed.

Lemma categories_invariant column :
  (0 <= max)%Z ->
  let st := fold_left (categories_step max) column start in
  Forall (bounded_or_single_row max column) (batches st)
  /\ bounded_or_single_row max column (current_batch st).
Proof.
  intros Hmax.
  enough (H : let st := fold_left (categories_step max) column start in
              current_count st = Z.of_nat (length (current_batch st))
              /\ Forall (bounded_or_single_row max column) (batches st)
              /\ bounded_or_single_row max column (current_batch st))
    by (simpl in *; tauto).
  apply (fold_left_prefix_inv (categories_step max)
           (fun pre st =>
              current_count st = Z.of_nat (length (current_batch st))
              /\ Forall (bounded_or_single_row max pre) (batches st)
              /\ bounded_or_single_row max pre (current_batch st))).
  - repeat split; [constructor | left; simpl; lia].
  - intros pre cell st (Hc & Hb & Hcur).
    assert (Hb' : Forall (bounded_or_single_row max (pre ++ [cell]))
                    (batches st)).
    { eapply Forall_impl; [|exact Hb].
      intros b. apply bounded_or_single_row_app. }
    apply (bounded_or_single_row_app _ cell) in Hcur.
    destruct cell as [text|]; simpl; [|now repeat split].
    destruct (_ >? max)%Z eqn:Hover; simpl.
    + split; [|split].
      * lia.
      * apply Forall_app. split; [exact Hb' | now constructor].
      * destruct (Z_le_gt_dec (Z.of_nat (length (parse_categories text)))
                    max) as [Hle | Hgt]; [now left | right].
        exists text. rewrite in_app_iff. simpl. repeat split; auto; lia.
    + rewrite Z.gtb_ltb in Hover. apply Z.ltb_ge in Hover.
      split; [|split].
      * rewrite length_app. lia.
      * exact Hb'.
      * left. rewrite length_app. lia.
Qed.

End ByCategories.

(** C4.  Batching by categories: for every column and every limit that
    is a size (not negative), each batch returned by [collect_categories]
    holds at most [max_batch_size] categories, unless it is exactly the
    parsed categories of one single row whose own count is above the
    limit. *)
Theorem collect_by_categories_bounded (max_batch_size : Z)
    (column : list (option string)) (b : Thematic.batch) :
  (0 <= max_batch_size)%Z ->
  In b (Thematic.collect_categories "categories" max_batch_size column) ->
  (Z.of_nat (length b) <= max_batch_size)%Z
  \/ exists text, In (Some text) column
                  /\ b = Thematic.parse_categories text
                  /\ (max_batch_size < Z.of_nat (length b))%Z.
Proof.
  intros Hmax Hin.
  destruct (categories_invariant max_batch_size column Hmax) as [Hb Hcur].
  unfold Thematic.collect_categories, Thematic.finish in Hin.
  simpl in Hin. rewrite Forall_forall in Hb.
  destruct (Thematic.current_batch _) eqn:E in Hin.
  - now apply Hb.
  - rewrite <- E in Hin. apply in_app_iff in Hin.
    destruct Hin as [Hin | [<- | []]]; [now apply Hb | exact Hcur].
Qed.

Lemma collect_by_categories_bounded_witness :
  (Z.of_nat (length ["a"; "b"]) <= 3)%Z
  \/ exists text, In (Some text) [Some "a;b"; Some "c;d"]
                  /\ ["a"; "b"] = Thematic.parse_categories text
                  /\ (3 < Z.of_nat (length ["a"; "b"]))%Z.
Proof.
  apply (collect_by_categories_bounded 3 [Some "a;b"; Some "c;d"]).
  - lia.
  - vm_compute. auto.
Defined.

(** Batches are only ever added to the list of closed batches. *)
Lemma categories_batches_grow max rest st b :
  In b (Thematic.batches st) ->
  In b (Thematic.batches (fold_left (Thematic.categories_step max) rest st)).
Proof.
  revert st. induction rest as [|cell rest IH]; intros st Hin; [exact Hin|].
  simpl. apply IH. destruct cell as [text|]; simpl; [|exact Hin].
  destruct (_ >? max)%Z; simpl; [|exact Hin].
  apply in_app_iff. now left.
Qed.

Lemma finish_keeps_batches st b :
  In b (Thematic.batches st) -> In b (Thematic.finish st).
Proof.
  unfold Thematic.finish. intros Hin.
  destruct (Thematic.current_batch st); [exact Hin|].
  apply in_app_iff. now left.
Qed.

(** C10.  Batching by categories can return an empty batch: when the
    current batch is empty and the next row has more categories than the
    limit, the overflow check fires, the empty batch is appended to the
    closed batches, the row's categories start the new batch, and the
    empty batch is in the list that [collect_categories] returns. *)
Theorem collect_by_categories_emits_empty_batch (max_batch_size : Z)
    (pre rest : list (option string)) (text : string) :
  let st := fold_left (Thematic.categories_step max_batch_size) pre
              Thematic.start in
  let categories := Thematic.parse_categories text in
  Thematic.current_batch st = [] ->
  (max_batch_size < Z.of_nat (length categories))%Z ->
  Thematic.categories_step max_batch_size st (Some text)
  = Thematic.Collector (Thematic.batches st ++ [[]]) categories
      (Z.of_nat (length categories))
  /\ In [] (Thematic.collect_categories "categories" max_batch_size
              (pre ++ Some text :: rest)).
Proof.
  intros st categories Hempty Hover.
  assert (Hstep : Thematic.categories_step max_batch_size st (Some text)
                  = Thematic.Collector (Thematic.batches st ++ [[]])
                      categories (Z.of_nat (length categories))).
  { pose proof (categories_count_is_length max_batch_size pre) as Hc.
    simpl in Hc. fold st in Hc. rewrite Hempty in Hc. simpl in Hc.
    unfold Thematic.categories_step. fold categories. cbv zeta.
    rewrite Hc.
    replace (0 + Z.of_nat (length categories) >? max_batch_size)%Z
      with true by (symmetry; apply Z.gtb_lt; lia).
    simpl. now rewrite Hempty. }
  split; [exact Hstep|].
  unfold Thematic.collect_categories.
  change ("categories" =? "rows")%string with false. cbv beta iota zeta.
  rewrite fold_left_app. cbn [fold_left]. fold st. rewrite Hstep.
  apply finish_keeps_batches, categories_batches_grow. cbn [Thematic.batches].
  apply in_app_iff. right. now left.
Qed.

Lemma collect_by_categories_emits_empty_batch_witness :
  Thematic.categories_step 2 Thematic.start (Some "a;b;c")
  = Thematic.Collector [[]] ["a"; "b"; "c"] 3
  /\ In [] (Thematic.collect_categories "categories" 2 [Some "a;b;c"]).
Proof.
  apply (collect_by_categories_emits_empty_batch 2 [] [] "a;b;c").
  - reflexivity.
  - vm_compute. reflexivity.
Defined.

(* ----------------------------------------------------------------- *)
(** ** [collect_categories]: batching by rows *)

Section ByRows.
Import Thematic.

Variable max : Z.
Hypothesis max_positive : (1 <= max)%Z.

Lemma parsed_rows_app pre cell :
  parsed_rows (pre ++ [cell])
  = parsed_rows pre ++ match cell with
                       | Some text => [parse_categories text]
                       | None => []
                       end.
Proof.
  unfold parsed_rows. rewrite flat_map_app. simpl. now rewrite app_nil_r.
Qed.

Lemma rows_invariant column :
  rows_grouped max column (fold_left (rows_step max) column start).
Proof.
  apply (fold_left_prefix_inv (rows_step max) (rows_grouped max)).
  - exists [], []. simpl. repeat split; auto; lia.
  - intros pre cell st (full & tail & Hrows & Hfull & Htail & Hne
                        & Hb & Hcur & Hcount).
    unfold rows_grouped. rewrite parsed_rows_app.
    destruct cell as [text|]; simpl.
    2:{ exists full, tail. rewrite app_nil_r. now repeat split. }
    destruct (current_count st >=? max)%Z eqn:Hclose; simpl.
    + apply Z.geb_le in Hclose.
      exists (full ++ [tail]), [parse_categories text].
      rewrite concat_app, map_app, Hrows, Hb, Hcur. simpl.
      rewrite ?app_nil_r, <- ?app_assoc.
      repeat split; auto; try lia; try discriminate.
      apply Forall_app. split; [exact Hfull|].
      constructor; [lia | constructor].
    + rewrite Z.geb_leb in Hclose. apply Z.leb_gt in Hclose.
      exists full, (tail ++ [parse_categories text]).
      rewrite concat_app, length_app, Hrows, Hb, Hcur, Hcount. simpl.
      rewrite ?app_nil_r, <- ?app_assoc. simpl.
      repeat split; auto; try lia.
      intros _ Habs. now apply app_eq_nil in Habs as [_ Habs].
Qed.

End ByRows.

Lemma parse_row_of n :
  Thematic.parse_categories (Thematic.row_of n) = repeat "a" n.
Proof.
  unfold Thematic.parse_categories, split.
  induction n as [|n IH]; [reflexivity|].
  simpl.
  replace (prefix EmptyString (Thematic.row_of n)) with true
    by now destruct (Thematic.row_of n).
  simpl. now rewrite IH.
Qed.

(** C5.  Batching by rows with a limit of at least one row: the rows that
    hold a value split, in order, into groups of exactly [max_batch_size]
    rows followed by a last group of at most [max_batch_size] rows (not
    empty when there is any row); the batches returned are the
    concatenated groups, the last one being left out when it has no
    category.  So a batch is closed exactly when its row count has
    reached the limit and a further row arrives.  The number of
    categories of a batch is not bounded by the limit. *)
Theorem collect_by_rows_groups (max_batch_size : Z)
    (column : list (option string)) :
  (1 <= max_batch_size)%Z ->
  (exists (full : list (list Thematic.batch)) (tail : list Thematic.batch),
     Thematic.parsed_rows column = concat full ++ tail
     /\ Forall (fun g => Z.of_nat (length g) = max_batch_size) full
     /\ (Z.of_nat (length tail) <= max_batch_size)%Z
     /\ (Thematic.parsed_rows column <> [] -> tail <> [])
     /\ Thematic.collect_categories "rows" max_batch_size column
        = map (@concat string) full
          ++ match concat tail with
             | [] => []
             | b => [b]
             end)
  /\ (exists cells b,
        In b (Thematic.collect_categories "rows" max_batch_size cells)
        /\ (max_batch_size < Z.of_nat (length b))%Z).
Proof.
  intros Hmax. split.
  - destruct (rows_invariant max_batch_size Hmax column)
      as (full & tail & Hrows & Hfull & Htail & Hne & Hb & Hcur & _).
    exists full, tail. repeat split; auto.
    unfold Thematic.collect_categories, Thematic.finish. simpl.
    rewrite Hcur, Hb.
    destruct (concat tail); [now rewrite app_nil_r | reflexivity].
  - remember (S (Z.to_nat max_batch_size)) as n eqn:Hn.
    exists [Some (Thematic.row_of n)], (repeat "a" n).
    unfold Thematic.collect_categories, Thematic.finish,
      Thematic.rows_step. simpl fold_left.
    replace (0 >=? max_batch_size)%Z with false
      by (symmetry; rewrite Z.geb_leb; apply Z.leb_gt; lia).
    cbv zeta. rewrite parse_row_of. subst n. simpl.
    split; [now left|]. rewrite repeat_length. lia.
Qed.

Lemma collect_by_rows_groups_witness :
  (exists (full : list (list Thematic.batch)) (tail : list Thematic.batch),
     Thematic.parsed_rows [Some "a;b"; Some "c"; Some "d;e;f"]
     = concat full ++ tail
     /\ Forall (fun g => Z.of_nat (length g) = 2%Z) full
     /\ (Z.of_nat (length tail) <= 2)%Z
     /\ (Thematic.parsed_rows [Some "a;b"; Some "c"; Some "d;e;f"] <> []
         -> tail <> [])
     /\ Thematic.collect_categories "rows" 2
          [Some "a;b"; Some "c"; Some "d;e;f"]
        = map (@concat string) full
          ++ match concat tail with
             | [] => []
             | b => [b]
             end)
  /\ (exists cells b,
        In b (Thematic.collect_categories "rows" 2 cells)
        /\ (2 < Z.of_nat (length b))%Z).
Proof.
  apply (collect_by_rows_groups 2 [Some "a;b"; Some "c"; Some "d;e;f"]).
  lia.
Defined.

(* ----------------------------------------------------------------- *)
(** ** The reduction loop of [iterative_aggregation] *)

Lemma pair_ind {A : Type} (P : list A -> Prop) :
  P [] -> (forall a, P [a]) -> (forall a b l, P l -> P (a :: b :: l)) ->
  forall l, P l.
Proof.
  intros Hnil Hone Hpair l.
  enough (H : P l /\ forall a, P (a :: l)) by apply H.
  induction l as [|b l [IH1 IH2]]; split; auto.
Qed.

Section Reduction.
Import Thematic.

Variable client : service.
Variable category_type : string.

Lemma rounds_app tr tr' : rounds (tr ++ tr') = rounds tr + rounds tr'.
Proof. unfold rounds. now rewrite filter_app, length_app. Qed.

Lemma service_calls_app tr tr' :
  service_calls (tr ++ tr') = service_calls tr + service_calls tr'.
Proof. unfold service_calls. now rewrite filter_app, length_app. Qed.

(** The loop over the even indices is the recursion over pairs. *)
Lemma for_each_merge_pairs rest :
  forall pre new j tr,
    length pre = 2 * j ->
    for_each (merge_step client category_type (pre ++ rest))
      (map (fun k => 2 * k) (seq j (Nat.div2 (length rest + 1)))) new tr
    = bind (merge_pairs client category_type rest)
        (fun merged => ret (new ++ merged)) tr.
Proof.
  induction rest as [|a|a b rest IH] using pair_ind; intros pre new j tr Hpre.
  - simpl. unfold bind, ret. simpl. now rewrite app_nil_r.
  - change (Nat.div2 (length [a] + 1)) with 1.
    cbn [seq map for_each merge_pairs].
    unfold bind, ret, merge_step.
    rewrite length_app. cbn [length].
    replace (2 * j + 1 <? length pre + 1)%nat with false
      by (symmetry; apply Nat.ltb_ge; lia).
    rewrite app_nth2 by lia.
    replace (2 * j - length pre) with 0 by lia. reflexivity.
  - replace (Nat.div2 (length (a :: b :: rest) + 1))
      with (S (Nat.div2 (length rest + 1)))
      by reflexivity.
    cbn [seq map for_each merge_pairs].
    unfold bind at 1. unfold merge_step at 1.
    rewrite length_app. cbn [length].
    replace (2 * j + 1 <? length pre + S (S (length rest)))%nat with true
      by (symmetry; apply Nat.ltb_lt; lia).
    rewrite !app_nth2 by lia.
    replace (2 * j - length pre) with 0 by lia.
    replace (2 * j + 1 - length pre) with 1 by lia.
    cbn [nth]. unfold bind. cbv beta.
    destruct (get_analysis_from_claude client (a ++ b) category_type
                false tr) as [[analysis | e] tr1]; [|reflexivity].
    unfold ret at 1.
    specialize (IH (pre ++ [a; b]) (new ++ [split ";" analysis]) (S j) tr1).
    rewrite <- app_assoc in IH.
    change ([a; b] ++ rest) with (a :: b :: rest) in IH.
    rewrite IH by (rewrite length_app; simpl; lia).
    unfold bind.
    destruct (merge_pairs client category_type rest tr1)
      as [[merged | e] tr2]; [|reflexivity].
    unfold ret. now rewrite <- app_assoc.
Qed.

Lemma merge_round_pairs categories tr :
  merge_round client category_type categories tr
  = merge_pairs client category_type categories tr.
Proof.
  unfold merge_round, range_by_two.
  pose proof (for_each_merge_pairs categories [] [] 0 tr eq_refl) as H.
  cbn [app] in H. rewrite H.
  unfold bind, ret. simpl.
  now destruct (merge_pairs client category_type categories tr) as [[?|?] ?].
Qed.

Lemma merge_pairs_length categories :
  forall tr new tr',
    merge_pairs client category_type categories tr = (Returned new, tr') ->
    length new = Nat.div2 (S (length categories)).
Proof.
  induction categories as [|a|a b rest IH] using pair_ind;
    intros tr new tr' Hrun.
  - now inversion Hrun.
  - now inversion Hrun.
  - cbn [merge_pairs] in Hrun. unfold bind in Hrun.
    destruct (get_analysis_from_claude _ _ _ _ _) as [[analysis | e] tr1];
      [|discriminate].
    destruct (merge_pairs _ _ rest tr1) as [[merged | e] tr2] eqn:Hrest;
      [|discriminate].
    inversion Hrun; subst. apply IH in Hrest. simpl in *. now rewrite Hrest.
Qed.

Lemma div2_succ_lt n : 2 <= n -> Nat.div2 (S n) < n.
Proof.
  intros Hn. rewrite Nat.div2_div.
  apply Nat.Div0.div_lt_upper_bound; lia.
Qed.

(** Any amount of fuel from the number of batches on gives the same
    run. *)
Lemma reduction_loop_fuel column fuel :
  forall fuel' categories iteration tr,
    length categories <= fuel -> length categories <= fuel' ->
    reduction_loop client fuel column category_type categories iteration tr
    = reduction_loop client fuel' column category_type categories
        iteration tr.
Proof.
  induction fuel as [|fuel IH]; intros fuel' categories iteration tr H1 H2.
  - destruct categories; [|simpl in H1; lia].
    now destruct fuel'.
  - destruct (1 <? length categories)%nat eqn:Hlen.
    + apply Nat.ltb_lt in Hlen.
      destruct fuel' as [|fuel']; [lia|].
      cbn [reduction_loop]. 
      replace (1 <? length categories)%nat with true
        by (symmetry; now apply Nat.ltb_lt).
      unfold bind.
      destruct (merge_round client category_type categories tr)
        as [[new | e] tr1] eqn:Hround; [|reflexivity].
      rewrite merge_round_pairs in Hround.
      apply merge_pairs_length in Hround.
      pose proof (div2_succ_lt (length categories)).
      destruct (save_intermediate_results _ _ _ _) as [[[] | e] tr2];
        [|reflexivity].
      apply IH; lia.
    + destruct fuel' as [|fuel']; cbn [reduction_loop]; now rewrite Hlen.
Qed.

(** With that fuel the loop ends by its own test. *)
Lemma reduction_loop_exit column fuel :
  forall categories iteration tr final iteration' tr',
    length categories <= fuel ->
    reduction_loop client fuel column category_type categories iteration tr
    = (Returned (final, iteration'), tr') ->
    length final <= 1.
Proof.
  induction fuel as [|fuel IH];
    intros categories iteration tr final iteration' tr' Hfuel Hrun.
  - inversion Hrun; subst. lia.
  - cbn [reduction_loop] in Hrun.
    destruct (1 <? length categories)%nat eqn:Hlen.
    + apply Nat.ltb_lt in Hlen. unfold bind in Hrun.
      destruct (merge_round client category_type categories tr)
        as [[new | e] tr1] eqn:Hround; [|discriminate].
      rewrite merge_round_pairs in Hround.
      apply merge_pairs_length in Hround.
      pose proof (div2_succ_lt (length categories)).
      destruct (save_intermediate_results _ _ _ _) as [[[] | e] tr2];
        [|discriminate].
      apply IH in Hrun; [exact Hrun | lia].
    + apply Nat.ltb_ge in Hlen. inversion Hrun; subst. exact Hlen.
Qed.

Hypothesis client_answers : answers client.

(** One round with a service that answers: it returns, halves the number
    of batches (rounding up), writes no file, calls the service once per
    full pair and hands an unpaired last batch on as it is. *)
Lemma merge_pairs_answers categories :
  forall tr, exists new tr',
    merge_pairs client category_type categories tr = (Returned new, tr')
    /\ length new = Nat.div2 (S (length categories))
    /\ rounds tr' = rounds tr
    /\ service_calls tr' = service_calls tr + Nat.div2 (length categories)
    /\ (Nat.odd (length categories) = true ->
        last new [] = last categories []).
Proof.
  induction categories as [|a|a b rest IH] using pair_ind; intros tr.
  - exists [], tr. simpl. repeat split; auto.
  - exists [a], tr. simpl. repeat split; auto.
  - cbn [merge_pairs]. unfold bind, get_analysis_from_claude.
    destruct (client_answers tr (a ++ b) category_type) as [text ->].
    destruct (IH (tr ++ [Analysis (a ++ b) category_type false]))
      as (merged & tr' & -> & Hlen & Hrounds & Hcalls & Hlast).
    exists (split ";" text :: merged), tr'. unfold ret.
    rewrite rounds_app in Hrounds. rewrite service_calls_app in Hcalls.
    change (rounds [Analysis (a ++ b) category_type false]) with 0
      in Hrounds.
    change (service_calls [Analysis (a ++ b) category_type false]) with 1
      in Hcalls.
    split; [reflexivity|]. split; [simpl; now rewrite Hlen|].
    split; [lia|]. split; [simpl; lia|].
    intros Hodd. change (Nat.odd (length rest) = true) in Hodd.
    specialize (Hlast Hodd).
    destruct rest as [|c rest]; [discriminate|].
    destruct merged as [|m merged]; [discriminate|].
    exact Hlast.
Qed.

Lemma reduction_loop_power_of_two column k :
  forall fuel categories iteration tr,
    k <= fuel -> length categories = 2 ^ k ->
    exists final tr',
      reduction_loop client fuel column category_type categories
        iteration tr
      = (Returned (final, (iteration + Z.of_nat k)%Z), tr')
      /\ length final = 1
      /\ rounds tr' = rounds tr + k.
Proof.
  induction k as [|k IH]; intros fuel categories iteration tr Hfuel Hlen.
  - exists categories, tr. rewrite Z.add_0_r, Nat.add_0_r.
    simpl in Hlen. repeat split; auto.
    destruct fuel; cbn [reduction_loop]; [reflexivity|].
    now rewrite Hlen.
  - destruct fuel as [|fuel]; [lia|]. cbn [reduction_loop].
    assert (Hpos : 1 <= 2 ^ k) by (apply Nat.neq_0_lt_0, Nat.pow_nonzero; lia).
    replace (1 <? length categories)%nat with true
      by (symmetry; apply Nat.ltb_lt; rewrite Hlen; simpl; lia).
    unfold bind. rewrite merge_round_pairs.
    destruct (merge_pairs_answers categories tr)
      as (new & tr1 & -> & Hnew & Hrounds & _).
    unfold save_intermediate_results, emit.
    destruct (IH fuel new (iteration + 1)%Z
                (tr1 ++ [SaveIteration iteration new column]))
      as (final & tr' & -> & Hfinal & Hr); [lia | |].
    + rewrite Hnew, Hlen. 
      replace (S (2 ^ S k)) with (1 + 2 * 2 ^ k) by (simpl; lia).
      now rewrite Nat.div2_succ_double.
    + exists final, tr'. rewrite rounds_app in Hr.
      change (rounds [SaveIteration iteration new column]) with 1 in Hr.
      split; [|split; [exact Hfinal | lia]].
      do 3 f_equal. lia.
Qed.

End Reduction.

(** C1.  With a service that answers, the reduction loop started on
    [2 ^ k] batches ([k >= 1]) returns after exactly
    [ceil(log2(2 ^ k)) = k] rounds with exactly one batch; and one round
    over an odd number of batches hands the last, unpaired batch on to
    the next round unchanged. *)
Theorem reduction_rounds_power_of_two (client : Thematic.service)
    (column category_type : string) (k : nat)
    (categories : list Thematic.batch) (iteration : Z)
    (tr : list Thematic.event) :
  Thematic.answers client ->
  1 <= k ->
  length categories = 2 ^ k ->
  (exists final tr',
     Thematic.reduction_loop client (length categories) column
       category_type categories iteration tr
     = (Returned
          (final,
           (iteration + Z.of_nat (Nat.log2_up (length categories)))%Z),
        tr')
     /\ length final = 1
     /\ Thematic.rounds tr'
        = Thematic.rounds tr + Nat.log2_up (length categories)
     /\ Nat.log2_up (length categories) = k)
  /\ (forall (odd : list Thematic.batch) (tr0 : list Thematic.event),
        Nat.odd (length odd) = true ->
        exists new tr0',
          Thematic.merge_round client category_type odd tr0
          = (Returned new, tr0')
          /\ length new = Nat.div2 (S (length odd))
          /\ last new [] = last odd []).
Proof.
  intros Hanswers Hk Hlen. split.
  - assert (Hlog : Nat.log2_up (length categories) = k)
      by (rewrite Hlen; apply Nat.log2_up_pow2; lia).
    rewrite Hlog.
    destruct (reduction_loop_power_of_two client category_type Hanswers
                column k (length categories) categories iteration tr)
      as (final & tr' & Hrun & Hfinal & Hrounds); auto.
    { rewrite Hlen. apply Nat.lt_le_incl, Nat.pow_gt_lin_r. lia. }
    exists final, tr'. auto.
  - intros odd tr0 Hodd. rewrite merge_round_pairs.
    destruct (merge_pairs_answers client category_type Hanswers odd tr0)
      as (new & tr0' & Hrun & Hnew & _ & _ & Hlast).
    exists new, tr0'. auto.
Qed.

Lemma reduction_rounds_power_of_two_witness :
  (exists final tr',
     Thematic.reduction_loop (fun _ _ _ _ => Thematic.Text "x;y") 2 "col"
       "type" [["a"]; ["b"]] 1%Z []
     = (Returned (final, (1 + Z.of_nat (Nat.log2_up 2))%Z), tr')
     /\ length final = 1
     /\ Thematic.rounds tr' = Thematic.rounds [] + Nat.log2_up 2
     /\ Nat.log2_up 2 = 1)
  /\ (forall (odd : list Thematic.batch) (tr0 : list Thematic.event),
        Nat.odd (length odd) = true ->
        exists new tr0',
          Thematic.merge_round (fun _ _ _ _ => Thematic.Text "x;y") "type"
            odd tr0
          = (Returned new, tr0')
          /\ length new = Nat.div2 (S (length odd))
          /\ last new [] = last odd []).
Proof.
  apply (reduction_rounds_power_of_two (fun _ _ _ _ => Thematic.Text "x;y")
           "col" "type" 1 [["a"]; ["b"]] 1%Z []).
  - intros tr categories category_type. now exists "x;y".
  - lia.
  - reflexivity.
Defined.

(** C2 (the code departs from the claim).  A merge of a full pair stores
    the response split on [;] as it is: with the response [x; y;] the
    new batch has the three entries [x], [ y] (padded) and the empty
    string, where trimming and dropping empty tokens, as
    [collect_categories] does, gives the two entries [x] and [y]. *)
Theorem merge_keeps_padded_and_empty_tokens :
  Thematic.merge_round (fun _ _ _ _ => Thematic.Text "x; y;") "type"
    [["a"]; ["b"]] []
  = (Returned [["x"; " y"; EmptyString]],
     [Thematic.Analysis ["a"; "b"] "type" false])
  /\ Thematic.parse_categories "x; y;" = ["x"; "y"].
Proof. split; reflexivity. Qed.

Lemma collect_no_values batch_by max_batch_size n :
  Thematic.collect_categories batch_by max_batch_size (repeat None n) = [].
Proof.
  unfold Thematic.collect_categories.
  destruct (batch_by =? "rows")%string.
  - induction n as [|n IH]; [reflexivity | exact IH].
  - induction n as [|n IH]; [reflexivity | exact IH].
Qed.

(** C3 (the code departs from the claim).  On a column without any value
    [collect_categories] returns no batch, the loop is skipped and
    [categories[0]] raises [IndexError]: [iterative_aggregation] makes no
    service call and writes no file, but it raises instead of reporting
    that there is no data. *)
Theorem iterative_aggregation_no_batches_raises (client : Thematic.service)
    (cfg : Thematic.config) (n : nat) (column category_type : string)
    (tr : list Thematic.event) :
  Thematic.reduce client [] column category_type tr = (Raised IndexError, tr)
  /\ Thematic.iterative_aggregation client cfg (repeat None n) column
       category_type tr
     = (Raised IndexError, tr).
Proof.
  split; [reflexivity|].
  unfold Thematic.iterative_aggregation.
  now rewrite collect_no_values.
Qed.

(* ----------------------------------------------------------------- *)
(** ** [process_row] *)

Section RowAnalysis.
Import CategoryMaker.

Variable client : service.
Variable cfg : config.

Lemma prompt_step_flag r mapping :
  forall st,
    snd (fold_left (prompt_step r) mapping st)
    = snd st || existsb (holds_value r) mapping.
Proof.
  induction mapping as [|[col topic] mapping IH]; intros st.
  - simpl. now rewrite orb_false_r.
  - cbn [fold_left existsb]. rewrite IH.
    unfold prompt_step, holds_value. cbn [fst].
    destruct (field r col) as [v|]; cbn [snd orb];
      [now rewrite orb_true_r | reflexivity].
Qed.

Lemma has_data_exists r :
  has_data cfg r = existsb (holds_value r) (column_mapping cfg).
Proof. unfold has_data, build_prompt. now rewrite prompt_step_flag. Qed.

Lemma has_data_true r : row_has_data cfg r -> has_data cfg r = true.
Proof.
  intros (col & topic & v & Hin & Hfield).
  rewrite has_data_exists. apply existsb_exists.
  exists (col, topic). split; [exact Hin|].
  unfold holds_value. simpl. now rewrite Hfield.
Qed.

Lemma has_data_false r :
  (forall col topic, In (col, topic) (column_mapping cfg) ->
                     field r col = None) ->
  has_data cfg r = false.
Proof.
  intros Hnone. rewrite has_data_exists.
  apply not_true_is_false. intros Hex.
  apply existsb_exists in Hex as ([col topic] & Hin & Hval).
  unfold holds_value in Hval. simpl in Hval.
  now rewrite (Hnone col topic Hin) in Hval.
Qed.

(** One attempt: a call, and after a failure either a sleep of
    [2 ^ attempt] and a further attempt, or the error marker. *)
Lemma attempt_body_run max_retries prompt attempt tr :
  let call := Create (system_text cfg) prompt in
  attempt_body client cfg max_retries prompt attempt tr
  = match client tr (system_text cfg) prompt with
    | Response content => (Returned (Some (response_text content)),
                           tr ++ [call])
    | Fails _ =>
        if (attempt <? max_retries - 1)%Z
        then (Returned None, (tr ++ [call]) ++ [Sleep (2 ^ attempt)])
        else (Returned (Some "Processing error"), tr ++ [call])
    end.
Proof.
  unfold attempt_body, try_except, bind, create, sleep, emit, ret.
  destruct (client tr (system_text cfg) prompt) as [[|block content] | e];
    try reflexivity.
  now destruct (attempt <? max_retries - 1)%Z.
Qed.

End RowAnalysis.

(** C6, as the code has it.  For a row without a value under any mapped
    column, [process_row] followed by [extract_elements] calls no service
    (the trace is unchanged) and returns the primary part
    ["No input data"] and an empty secondary part. *)
Theorem analyze_row_without_data (client : CategoryMaker.service)
    (cfg : CategoryMaker.config) (r : CategoryMaker.row)
    (tr : list CategoryMaker.event) :
  (forall col topic, In (col, topic) (CategoryMaker.column_mapping cfg) ->
                     CategoryMaker.field r col = None) ->
  CategoryMaker.analyzeRow client cfg r tr
  = (Returned (CategoryMaker.Elements "No input data" EmptyString), tr).
Proof.
  intros Hnone. apply has_data_false in Hnone.
  unfold CategoryMaker.analyzeRow, CategoryMaker.process_row.
  unfold CategoryMaker.has_data in Hnone.
  destruct (CategoryMaker.build_prompt cfg r) as [prompt flag].
  simpl in Hnone. subst flag. reflexivity.
Qed.

Lemma analyze_row_without_data_witness :
  CategoryMaker.analyzeRow (fun _ _ _ => CategoryMaker.Response ["x"])
    (CategoryMaker.Config [("c1", "Topic")] "context" None "p" "s")
    [("c1", None); ("c2", Some "text")] []
  = (Returned (CategoryMaker.Elements "No input data" EmptyString), []).
Proof.
  apply analyze_row_without_data.
  intros col topic [Heq | []]. inversion Heq; subst. reflexivity.
Defined.

(** C6 as stated fails: for a row without data the secondary part is the
    empty string, not ["No input data"]. *)
Lemma analyze_row_without_data_not_both_markers :
  CategoryMaker.analyzeRow (fun _ _ _ => CategoryMaker.Response ["x"])
    (CategoryMaker.Config [("c1", "Topic")] "context" None "p" "s")
    [("c1", None); ("c2", Some "text")] []
  <> (Returned (CategoryMaker.Elements "No input data" "No input data"), []).
Proof. vm_compute. discriminate. Qed.

(** C7.  For a row with data [process_row] always returns a string and
    never raises.  The events it adds are service calls with the same
    prompt, separated by sleeps of [2 ^ 0] and [2 ^ 1]: after [f] failed
    calls ([f <= 3]) there are [min(f, 2)] call-and-sleep pairs and one
    last call, so at most 3 calls; after 3 failed calls the result is
    ["Processing error"]. *)
Theorem process_row_retries (client : CategoryMaker.service)
    (cfg : CategoryMaker.config) (r : CategoryMaker.row)
    (tr : list CategoryMaker.event) :
  CategoryMaker.row_has_data cfg r ->
  exists v new,
    CategoryMaker.process_row client cfg r tr = (Returned (Some v), tr ++ new)
    /\ let f := CategoryMaker.failures client tr new in
       let call := CategoryMaker.Create (CategoryMaker.system_text cfg)
                     (fst (CategoryMaker.build_prompt cfg r)) in
       new = flat_map (fun k => [call; CategoryMaker.Sleep (2 ^ k)])
               (CategoryMaker.range (Nat.min f 2))
             ++ [call]
       /\ f <= 3
       /\ CategoryMaker.service_calls new = Nat.min (S f) 3
       /\ CategoryMaker.service_calls new <= 3
       /\ (f = 3 -> v = "Processing error").
Proof.
  intros Hdata. apply has_data_true in Hdata.
  unfold CategoryMaker.process_row, CategoryMaker.has_data in *.
  destruct (CategoryMaker.build_prompt cfg r) as [prompt flag].
  simpl in Hdata. subst flag. cbn [negb fst].
  set (system := CategoryMaker.system_text cfg).
  set (call := CategoryMaker.Create system prompt).
  cbn [CategoryMaker.range seq map CategoryMaker.attempts].
  unfold bind at 1. rewrite attempt_body_run. fold system call.
  destruct (client tr system prompt) as [content | e] eqn:H0.
  { exists (CategoryMaker.response_text content), [call].
    split; [reflexivity|].
    cbn. fold system. rewrite H0. cbn. repeat split; auto; discriminate. }
  cbn [Z.of_nat Z.ltb Z.sub Z.add Z.opp Z.pos_sub Z.compare Pos.compare
       Pos.compare_cont Z.pow Z.pow_pos Pos.of_succ_nat Pos.succ
       Pos.pred_double Z.succ_double Z.pred_double Z.double].
  unfold bind at 1. rewrite attempt_body_run. fold system call.
  destruct (client ((tr ++ [call]) ++ [CategoryMaker.Sleep 1]) system prompt)
    as [content | e1] eqn:H1.
  { exists (CategoryMaker.response_text content),
      [call; CategoryMaker.Sleep 1; call].
    split; [now rewrite <- !app_assoc|].
    cbn. fold system. rewrite H0, H1. cbn.
    repeat split; auto; discriminate. }
  cbn [Z.of_nat Z.ltb Z.sub Z.add Z.opp Z.pos_sub Z.compare Pos.compare
       Pos.compare_cont Z.pow Z.pow_pos Pos.of_succ_nat Pos.succ
       Pos.pred_double Z.succ_double Z.pred_double Z.double Pos.iter
       Z.mul Pos.mul].
  unfold bind at 1. rewrite attempt_body_run. fold system call.
  destruct (client ((((tr ++ [call]) ++ [CategoryMaker.Sleep 1]) ++ [call])
                    ++ [CategoryMaker.Sleep 2]) system prompt)
    as [content | e2] eqn:H2.
  { exists (CategoryMaker.response_text content),
      [call; CategoryMaker.Sleep 1; call; CategoryMaker.Sleep 2; call].
    split; [now rewrite <- !app_assoc|].
    cbn. fold system. rewrite H0, H1, H2. cbn.
    repeat split; auto; discriminate. }
  exists "Processing error",
    [call; CategoryMaker.Sleep 1; call; CategoryMaker.Sleep 2; call].
  split; [now rewrite <- !app_assoc|].
  cbn. fold system. rewrite H0, H1, H2. cbn. repeat split; auto.
Qed.

Lemma process_row_retries_witness :
  let client : CategoryMaker.service :=
    fun _ _ _ => CategoryMaker.Fails ServiceError in
  let cfg := CategoryMaker.Config [("c1", "Topic")] "context" None "p" "s" in
  let r : CategoryMaker.row := [("c1", Some "text")] in
  exists v new,
    CategoryMaker.process_row client cfg r [] = (Returned (Some v), [] ++ new)
    /\ let f := CategoryMaker.failures client [] new in
       let call := CategoryMaker.Create (CategoryMaker.system_text cfg)
                     (fst (CategoryMaker.build_prompt cfg r)) in
       new = flat_map (fun k => [call; CategoryMaker.Sleep (2 ^ k)])
               (CategoryMaker.range (Nat.min f 2))
             ++ [call]
       /\ f <= 3
       /\ CategoryMaker.service_calls new = Nat.min (S f) 3
       /\ CategoryMaker.service_calls new <= 3
       /\ (f = 3 -> v = "Processing error").
Proof.
  intros client cfg r.
  apply (process_row_retries client cfg r []).
  exists "c1", "Topic", "text". split; [now left | reflexivity].
Defined.

(* ----------------------------------------------------------------- *)
(** ** [extract_elements] *)

Section Splitting.
Import CategoryMaker.

Lemma prefix_nil s : prefix EmptyString s = true.
Proof. now destruct s. Qed.

Lemma substring_all s : substring 0 (String.length s) s = s.
Proof. induction s as [|c s IH]; simpl; [reflexivity | now rewrite IH]. Qed.

Lemma substring_drop n :
  forall s, substring n (String.length s - n) s = drop n s.
Proof.
  induction n as [|n IH]; intros s.
  - rewrite Nat.sub_0_r, substring_all. now destruct s.
  - destruct s as [|c s]; [reflexivity|]. simpl. apply IH.
Qed.

(** Passing over [k] characters is splitting what follows them. *)
Lemma split_from_skip sep maxsplit s :
  forall k, split_from sep maxsplit k s
            = split_from sep maxsplit 0 (drop k s).
Proof.
  induction s as [|c s IH]; intros [|k]; try reflexivity.
  simpl. apply IH.
Qed.

(** [split] by the first occurrence of a non-empty separator. *)
Lemma split_index c0 sep' s :
  let sep := String c0 sep' in
  split sep s
  = match index 0 sep s with
    | Some n => substring 0 n s :: split sep (drop (n + String.length sep) s)
    | None => [s]
    end.
Proof.
  intros sep. unfold split.
  induction s as [|c s IH]; [reflexivity|].
  cbn [split_from index option_map].
  destruct (prefix sep (String c s)) eqn:Hprefix.
  - cbn [substring Nat.add]. f_equal.
    rewrite split_from_skip. subst sep. cbn [String.length drop Nat.sub].
    now rewrite Nat.sub_0_r.
  - rewrite IH. destruct (index 0 sep s) as [n|]; reflexivity.
Qed.

Lemma split_max_one_index c0 sep' s :
  let sep := String c0 sep' in
  split_max sep 1 s
  = match index 0 sep s with
    | Some n => [substring 0 n s; drop (n + String.length sep) s]
    | None => [s]
    end.
Proof.
  intros sep. unfold split_max.
  induction s as [|c s IH]; [reflexivity|].
  cbn [split_from index option_map Nat.pred].
  destruct (prefix sep (String c s)) eqn:Hprefix.
  - cbn [substring Nat.add]. f_equal.
    rewrite split_from_skip. subst sep. cbn [String.length drop Nat.sub].
    rewrite Nat.sub_0_r. now destruct (drop (String.length sep') s).
  - rewrite IH. destruct (index 0 sep s) as [n|]; reflexivity.
Qed.

Lemma prefix_cons a s1 b s2 :
  prefix (String a s1) (String b s2)
  = if ascii_dec a b then prefix s1 s2 else false.
Proof. reflexivity. Qed.

Lemma after_first_drop sep s :
  after_first sep s
  = option_map (fun n => drop (n + String.length sep) s) (index 0 sep s).
Proof.
  unfold after_first. destruct (index 0 sep s) as [n|]; [|reflexivity].
  cbv zeta. now rewrite substring_drop.
Qed.

Lemma after_first_colon s : after_first ":" s = after_colon s.
Proof.
  rewrite after_first_drop.
  induction s as [|c s IH]; [reflexivity|].
  cbn [index after_colon]. rewrite prefix_cons, prefix_nil.
  destruct (ascii_dec ":" c) as [_ | _]; [reflexivity|].
  rewrite <- IH. now destruct (index 0 ":" s).
Qed.

Lemma isspace_colon c : isspace c = true -> ":"%char <> c.
Proof. intros Hc <-. discriminate. Qed.

Lemma after_colon_lstrip s : after_colon (lstrip s) = after_colon s.
Proof.
  induction s as [|c s IH]; [reflexivity|].
  cbn [lstrip]. destruct (isspace c) eqn:Hc; [|reflexivity].
  cbn [after_colon].
  destruct (ascii_dec ":" c) as [Heq | _]; [|exact IH].
  now apply isspace_colon in Hc.
Qed.

Lemma after_colon_rstrip s :
  after_colon (rstrip s) = option_map rstrip (after_colon s).
Proof.
  induction s as [|c s IH]; [reflexivity|].
  cbn [rstrip after_colon].
  destruct (ascii_dec ":" c) as [<- | Hc].
  - cbn [option_map]. destruct (rstrip s); reflexivity.
  - destruct (rstrip s) as [|d r] eqn:Hr.
    + destruct (isspace c); cbn [after_colon];
        [|destruct (ascii_dec ":" c); try contradiction];
        cbn [after_colon] in IH; rewrite <- IH; reflexivity.
    + cbn [after_colon]. destruct (ascii_dec ":" c); try contradiction.
      exact IH.
Qed.

Lemma lstrip_idempotent s : lstrip (lstrip s) = lstrip s.
Proof.
  induction s as [|c s IH]; [reflexivity|].
  simpl. destruct (isspace c) eqn:Hc; [exact IH|].
  simpl. now rewrite Hc.
Qed.

Lemma rstrip_idempotent s : rstrip (rstrip s) = rstrip s.
Proof.
  induction s as [|c s IH]; [reflexivity|].
  cbn [rstrip]. destruct (rstrip s) as [|d r] eqn:Hr.
  - destruct (isspace c) eqn:Hc; [reflexivity|].
    simpl. now rewrite Hc.
  - cbn [rstrip]. cbn [rstrip] in IH. now rewrite IH.
Qed.

Lemma lstrip_rstrip s : lstrip (rstrip s) = rstrip (lstrip s).
Proof.
  induction s as [|c s IH]; [reflexivity|].
  cbn [lstrip rstrip]. destruct (isspace c) eqn:Hc.
  - rewrite <- IH. destruct (rstrip s) as [|d r]; [reflexivity|].
    cbn [lstrip]. now rewrite Hc.
  - cbn [rstrip]. destruct (rstrip s) as [|d r];
      rewrite ?Hc; cbn [lstrip]; now rewrite Hc.
Qed.

Lemma strip_idempotent s : strip (strip s) = strip s.
Proof.
  unfold strip.
  now rewrite lstrip_rstrip, lstrip_idempotent, rstrip_idempotent.
Qed.

Lemma strip_rstrip s : strip (rstrip s) = strip s.
Proof. unfold strip. now rewrite lstrip_rstrip, rstrip_idempotent. Qed.

(** [part.split(':', 1)[-1]] is the part without its label. *)
Lemma last_field_split_colon part :
  last_field (split_max ":" 1 part) = without_label part.
Proof.
  unfold without_label, after_first.
  rewrite (split_max_one_index ":" EmptyString part).
  destruct (index 0 ":" part) as [n|]; [|reflexivity].
  cbv zeta. now rewrite substring_drop.
Qed.

(** Trimming a part before its label is dropped changes nothing. *)
Lemma drop_label_strip part :
  drop_label (strip part) = strip (without_label part).
Proof.
  unfold drop_label. rewrite last_field_split_colon.
  unfold without_label. rewrite !after_first_colon.
  unfold strip at 2. rewrite after_colon_rstrip, after_colon_lstrip.
  destruct (after_colon part) as [rest|]; cbn [option_map].
  - apply strip_rstrip.
  - apply strip_idempotent.
Qed.

End Splitting.

(** C9, as the code has it.  [extract_elements] is total and returns two
    strings.  The primary part comes from the text before the first
    [---]; the secondary part from the text between the first [---] and
    the next one (up to the end when there is no other), and is empty
    when there is no [---].  In each part everything up to and including
    the first colon is discarded, later colons are kept, and the rest is
    trimmed. *)
Theorem extract_elements_parts (analysis : string) :
  let part text :=
    strip (CategoryMaker.without_label
             (CategoryMaker.before_first "---" text)) in
  CategoryMaker.extract_elements analysis
  = CategoryMaker.Elements
      (part analysis)
      match CategoryMaker.after_first "---" analysis with
      | Some rest => part rest
      | None => EmptyString
      end.
Proof.
  cbv zeta.
  unfold CategoryMaker.extract_elements, CategoryMaker.before_first,
    CategoryMaker.after_first.
  rewrite (split_index "-" "--" analysis).
  destruct (index 0 "---" analysis) as [n|].
  - cbv zeta. rewrite substring_drop.
    rewrite (split_index "-" "--" (drop (n + String.length "---") analysis)).
    f_equal; [apply drop_label_strip|].
    destruct (index 0 "---" (drop (n + String.length "---") analysis));
      apply drop_label_strip.
  - f_equal. apply drop_label_strip.
Qed.

(** C9 as stated fails on a text with two separators: the secondary part
    is what lies between them, not all the text after the first. *)
Lemma extract_elements_second_separator :
  CategoryMaker.after_first "---" "a---b---c" = Some "b---c"
  /\ CategoryMaker.secondary (CategoryMaker.extract_elements "a---b---c")
     = "b"
  /\ CategoryMaker.secondary (CategoryMaker.extract_elements "a---b---c")
     <> strip (CategoryMaker.without_label "b---c").
Proof.
  split; [reflexivity|]. split; [reflexivity|].
  vm_compute. discriminate.
Qed.

(* ----------------------------------------------------------------- *)
(** ** [clean_text] *)

Section Cleaning.
Import CategoryMaker.

Lemma all_chars_app p s t :
  all_chars p (s ++ t)%string = all_chars p s && all_chars p t.
Proof.
  induction s as [|c s IH]; [reflexivity|].
  simpl. now rewrite IH, andb_assoc.
Qed.

(** A substitution only adds copies of the replacement. *)
Lemma all_chars_sub_from p matcher repl s :
  all_chars p repl = true ->
  forall skip,
    all_chars p s = true ->
    all_chars p (sub_from matcher repl skip s) = true.
Proof.
  intros Hrepl.
  induction s as [|c s IH]; intros skip Hs; [reflexivity|].
  simpl in Hs. apply andb_prop in Hs as [Hc Hs].
  cbn [sub_from]. destruct skip as [|k]; [|now apply IH].
  destruct (matcher (String c s)) as [[|k]|].
  - simpl. now rewrite Hc, IH.
  - rewrite all_chars_app, Hrepl. now apply IH.
  - simpl. now rewrite Hc, IH.
Qed.

Lemma all_chars_lstrip p s :
  all_chars p s = true -> all_chars p (lstrip s) = true.
Proof.
  induction s as [|c s IH]; [reflexivity|].
  intros Hs. cbn [lstrip]. destruct (isspace c); [|exact Hs].
  simpl in Hs. apply andb_prop in Hs as [_ Hs]. now apply IH.
Qed.

Lemma all_chars_rstrip p s :
  all_chars p s = true -> all_chars p (rstrip s) = true.
Proof.
  induction s as [|c s IH]; [reflexivity|].
  intros Hs. simpl in Hs. apply andb_prop in Hs as [Hc Hs].
  specialize (IH Hs). cbn [rstrip].
  destruct (rstrip s) as [|d r].
  - destruct (isspace c); [reflexivity|]. simpl. now rewrite Hc.
  - cbn [all_chars]. cbn [all_chars] in IH. now rewrite Hc, IH.
Qed.

Lemma all_chars_strip p s :
  all_chars p s = true -> all_chars p (strip s) = true.
Proof. intros Hs. now apply all_chars_rstrip, all_chars_lstrip. Qed.

(** A prefix has its characters in the text. *)
Lemma prefix_all_chars p a :
  forall b, prefix a b = true -> all_chars p b = true ->
            all_chars p a = true.
Proof.
  induction a as [|c a IH]; intros [|d b] Hpre Hb; try reflexivity.
  - discriminate.
  - rewrite prefix_cons in Hpre.
    destruct (ascii_dec c d) as [<- | _]; [|discriminate].
    simpl in *. apply andb_prop in Hb as [Hc Hb].
    rewrite Hc. now apply (IH b).
Qed.

(** A literal with a character that the text lacks does not match. *)
Lemma literal_absent p old s :
  all_chars p old = false -> all_chars p s = true -> literal old s = None.
Proof.
  intros Hold Hs. unfold literal.
  destruct (prefix old s) eqn:Hpre; [|reflexivity].
  now rewrite (prefix_all_chars p old s Hpre Hs) in Hold.
Qed.

Lemma content_block_absent s :
  all_chars (not_char "'") s = true -> content_block s = None.
Proof.
  intros Hs. unfold content_block.
  repeat match goal with
         | |- context [prefix ?lit s] =>
             let H := fresh "Hpre" in
             destruct (prefix lit s) eqn:H;
             [apply (prefix_all_chars (not_char "'") lit s) in H;
              [discriminate | exact Hs]|]
         end.
  reflexivity.
Qed.

(** A substitution whose pattern needs a character that the text lacks
    leaves the text as it is. *)
Lemma sub_from_absent p matcher repl :
  (forall t, all_chars p t = true -> matcher t = None) ->
  forall s, all_chars p s = true -> sub_from matcher repl 0 s = s.
Proof.
  intros Hnone. induction s as [|c s IH]; intros Hs; [reflexivity|].
  cbn [sub_from]. rewrite (Hnone _ Hs).
  simpl in Hs. apply andb_prop in Hs as [_ Hs]. now rewrite IH.
Qed.

Lemma replace_absent p old new s :
  all_chars p old = false -> all_chars p s = true -> replace old new s = s.
Proof.
  intros Hold. apply sub_from_absent.
  intros t. now apply literal_absent.
Qed.

(** Replacing a character by nothing removes it. *)
Lemma replace_char_removed c s :
  all_chars (not_char c) (replace (String c EmptyString) EmptyString s)
  = true.
Proof.
  unfold replace. induction s as [|a s IH]; [reflexivity|].
  cbn [sub_from]. unfold literal at 1. rewrite prefix_cons, prefix_nil.
  destruct (ascii_dec c a) as [<- | Hneq].
  - cbn [String.length]. exact IH.
  - cbn [all_chars]. rewrite IH, andb_true_r.
    unfold not_char. apply negb_true_iff, Ascii.eqb_neq. congruence.
Qed.

(** *** Collapsing white space *)

Lemma sub_from_skip matcher repl s :
  forall k, sub_from matcher repl k s = sub_from matcher repl 0 (drop k s).
Proof.
  induction s as [|c s IH]; intros [|k]; try reflexivity.
  simpl. apply IH.
Qed.

Lemma drop_space_run s : drop (space_run s) s = lstrip s.
Proof.
  induction s as [|c s IH]; [reflexivity|].
  simpl. destruct (isspace c); [exact IH | reflexivity].
Qed.

Lemma collapse_space c s :
  isspace c = true ->
  sub_from spaces " " 0 (String c s)
  = String " " (sub_from spaces " " 0 (lstrip s)).
Proof.
  intros Hc. cbn [sub_from]. unfold spaces at 1. cbn [space_run].
  rewrite Hc. cbn [append]. now rewrite sub_from_skip, drop_space_run.
Qed.

Lemma collapse_other c s :
  isspace c = false ->
  sub_from spaces " " 0 (String c s) = String c (sub_from spaces " " 0 s).
Proof.
  intros Hc. cbn [sub_from]. unfold spaces at 1. cbn [space_run].
  now rewrite Hc.
Qed.

Lemma lstrip_length s : String.length (lstrip s) <= String.length s.
Proof.
  induction s as [|c s IH]; [reflexivity|].
  simpl. destruct (isspace c); simpl; lia.
Qed.

Lemma lstrip_head s c t : lstrip s = String c t -> isspace c = false.
Proof.
  induction s as [|a s IH]; [discriminate|].
  simpl. destruct (isspace a) eqn:Ha; [exact IH|].
  intros Heq. now inversion Heq; subst.
Qed.

Lemma lstrip_fixed c s : isspace c = false -> lstrip (String c s) = String c s.
Proof. intros Hc. simpl. now rewrite Hc. Qed.

(** After the collapse all white space is single plain spaces. *)
Lemma collapse_result s :
  all_chars plain_space (sub_from spaces " " 0 s) = true
  /\ single_spaced (sub_from spaces " " 0 s) = true.
Proof.
  remember (String.length s) as n eqn:Hn.
  assert (Hle : String.length s <= n) by lia. clear Hn.
  revert s Hle. induction n as [|n IH]; intros [|c s] Hle;
    try (split; reflexivity); simpl in Hle; [lia|].
  destruct (isspace c) eqn:Hc.
  - rewrite (collapse_space c s Hc).
    pose proof (lstrip_length s) as Hlen.
    destruct (IH (lstrip s)) as [Hplain Hsingle]; [lia|].
    split; [cbn [all_chars]; now rewrite Hplain|].
    cbn [single_spaced]. rewrite Hsingle, andb_true_r.
    destruct (lstrip s) as [|d t] eqn:Hl; [reflexivity|].
    apply lstrip_head in Hl. rewrite (collapse_other d t Hl).
    now rewrite Hl, andb_false_r.
  - rewrite (collapse_other c s Hc).
    destruct (IH s) as [Hplain Hsingle]; [lia|].
    split.
    + cbn [all_chars]. unfold plain_space at 1. now rewrite Hc, Hplain.
    + cbn [single_spaced]. rewrite Hsingle, andb_true_r.
      destruct (sub_from spaces " " 0 s); [reflexivity|].
      now rewrite Hc.
Qed.

(** A text with single plain spaces only is not changed by the
    collapse. *)
Lemma collapse_fixed s :
  all_chars plain_space s = true -> single_spaced s = true ->
  sub_from spaces " " 0 s = s.
Proof.
  induction s as [|c s IH]; intros Hplain Hsingle; [reflexivity|].
  cbn [all_chars] in Hplain. apply andb_prop in Hplain as [Hc Hplain].
  cbn [single_spaced] in Hsingle. apply andb_prop in Hsingle as [Hcs Hsingle].
  destruct (isspace c) eqn:Hsp.
  - rewrite (collapse_space c s Hsp).
    unfold plain_space in Hc. rewrite Hsp in Hc. simpl in Hc.
    apply Ascii.eqb_eq in Hc. subst c.
    destruct s as [|d t]; [reflexivity|].
    simpl in Hcs. apply negb_true_iff in Hcs.
    rewrite (lstrip_fixed d t Hcs). now rewrite IH.
  - rewrite (collapse_other c s Hsp). now rewrite IH.
Qed.

Lemma single_spaced_tail c s :
  single_spaced (String c s) = true -> single_spaced s = true.
Proof. cbn [single_spaced]. intros H. now apply andb_prop in H. Qed.

Lemma single_spaced_lstrip s :
  single_spaced s = true -> single_spaced (lstrip s) = true.
Proof.
  induction s as [|c s IH]; [reflexivity|].
  intros Hs. cbn [lstrip]. destruct (isspace c); [|exact Hs].
  apply IH. now apply single_spaced_tail in Hs.
Qed.

Lemma rstrip_head s d r : rstrip s = String d r -> exists t, s = String d t.
Proof.
  destruct s as [|c s]; [discriminate|].
  cbn [rstrip]. destruct (rstrip s).
  - destruct (isspace c); [discriminate|].
    intros Heq. inversion Heq; subst. now exists s.
  - intros Heq. inversion Heq; subst. now exists s.
Qed.

Lemma single_spaced_rstrip s :
  single_spaced s = true -> single_spaced (rstrip s) = true.
Proof.
  induction s as [|c s IH]; [reflexivity|].
  intros Hs. pose proof (single_spaced_tail _ _ Hs) as Hs'.
  specialize (IH Hs'). cbn [rstrip].
  destruct (rstrip s) as [|d r] eqn:Hr.
  - now destruct (isspace c).
  - apply rstrip_head in Hr as [t ->].
    cbn [single_spaced] in Hs. apply andb_prop in Hs as [Hcd _].
    cbn [single_spaced]. cbn [single_spaced] in IH. now rewrite Hcd, IH.
Qed.

Lemma single_spaced_strip s :
  single_spaced s = true -> single_spaced (strip s) = true.
Proof. intros Hs. now apply single_spaced_rstrip, single_spaced_lstrip. Qed.

(** *** The shape of a cleaned text *)

Lemma clean_text_steps text :
  clean_text text
  = strip (replace "'" EmptyString
             (replace double_quote EmptyString
                (sub_from spaces " " 0 (unescaped text)))).
Proof. reflexivity. Qed.

Lemma clean_text_tidy text : tidy (clean_text text).
Proof.
  rewrite clean_text_steps. unfold tidy, replace.
  repeat split.
  - apply all_chars_strip, replace_char_removed.
  - apply all_chars_strip, all_chars_sub_from; [reflexivity|].
    apply replace_char_removed.
  - apply all_chars_strip.
    do 3 (apply all_chars_sub_from; [reflexivity|]).
    apply replace_char_removed.
  - apply all_chars_strip.
    do 2 (apply all_chars_sub_from; [reflexivity|]).
    apply collapse_result.
  - apply strip_idempotent.
Qed.

(** On a text without quotes and backslashes only the collapse of white
    space and the final trimming act. *)
Lemma clean_text_without_marks text :
  all_chars (not_char "'") text = true ->
  all_chars (not_char "034") text = true ->
  all_chars (not_char "\") text = true ->
  clean_text text = strip (sub_from spaces " " 0 text).
Proof.
  intros Hq Hd Hb. rewrite clean_text_steps. unfold unescaped.
  rewrite (sub_from_absent _ _ _ content_block_absent text Hq).
  rewrite (replace_absent (not_char "\") "\n" newline text eq_refl Hb).
  rewrite (replace_absent (not_char "\") "\" EmptyString text eq_refl Hb).
  rewrite (replace_absent (not_char "034") double_quote); try reflexivity.
  - rewrite (replace_absent (not_char "'") "'"); try reflexivity.
    now apply all_chars_sub_from.
  - now apply all_chars_sub_from.
Qed.

Lemma normal_collapse text :
  tidy text -> normal (strip (sub_from spaces " " 0 text)).
Proof.
  intros (Hq & Hd & Hb & _ & _).
  destruct (collapse_result text) as [Hplain Hsingle].
  repeat split.
  - now apply all_chars_strip, all_chars_sub_from.
  - now apply all_chars_strip, all_chars_sub_from.
  - now apply all_chars_strip, all_chars_sub_from.
  - now apply all_chars_strip.
  - apply strip_idempotent.
  - now apply single_spaced_strip.
Qed.

(** Cleaning a normal text changes nothing. *)
Lemma clean_text_normal text : normal text -> clean_text text = text.
Proof.
  intros [(Hq & Hd & Hb & Hplain & Hstrip) Hsingle].
  rewrite clean_text_without_marks by assumption.
  now rewrite collapse_fixed.
Qed.

(** The first three steps bring no quote into a text without quotes. *)
Lemma unescaped_without_quotes p text :
  p "010"%char = true ->
  all_chars p text = true -> all_chars p (unescaped text) = true.
Proof.
  intros Hnl Htext. unfold unescaped, replace.
  apply all_chars_sub_from; [reflexivity|].
  apply all_chars_sub_from; [simpl; now rewrite Hnl|].
  now apply all_chars_sub_from.
Qed.

(** Although one cleaning may not be enough, on a text without quote
    characters it is: the result is normal. *)
Lemma clean_text_idempotent_without_quotes text :
  all_chars (not_char "'") text = true ->
  all_chars (not_char "034") text = true ->
  clean_text (clean_text text) = clean_text text.
Proof.
  intros Hq Hd. apply clean_text_normal. split; [apply clean_text_tidy|].
  rewrite clean_text_steps.
  pose proof (unescaped_without_quotes _ text eq_refl Hq) as Hq'.
  pose proof (unescaped_without_quotes _ text eq_refl Hd) as Hd'.
  rewrite (replace_absent (not_char "034") double_quote); try reflexivity.
  - rewrite (replace_absent (not_char "'") "'"); try reflexivity.
    + apply single_spaced_strip, collapse_result.
    + now apply all_chars_sub_from.
  - now apply all_chars_sub_from.
Qed.

(** In general a second cleaning is enough: the third changes
    nothing. *)
Lemma clean_text_settles text :
  clean_text (clean_text (clean_text text)) = clean_text (clean_text text).
Proof.
  pose proof (clean_text_tidy text) as Htidy.
  pose proof Htidy as (Hq & Hd & Hb & _ & _).
  apply clean_text_normal.
  rewrite (clean_text_without_marks (clean_text text)) by assumption.
  now apply normal_collapse.
Qed.

End Cleaning.


(** C8 (the code departs from the claim).  [clean_text] collapses white
    space before it removes quotes, so a quote between two spaces leaves
    a double space that only a second cleaning collapses: cleaning
    [a ' b] gives [a  b], and cleaning that gives [a b]. *)
Theorem clean_text_not_idempotent :
  CategoryMaker.clean_text "a ' b" = "a  b"
  /\ CategoryMaker.clean_text (CategoryMaker.clean_text "a ' b") = "a b"
  /\ CategoryMaker.clean_text (CategoryMaker.clean_text "a ' b")
     <> CategoryMaker.clean_text "a ' b".
Proof.
  split; [reflexivity|]. split; [reflexivity|].
  vm_compute. discriminate.
Qed.


(* ================================================================= *)
(** * Further properties *)

(* ----------------------------------------------------------------- *)
(** ** [collect_categories]: what the batches hold *)

Section Content.
Import Thematic.

(** Both loops keep every parsed category, in order, between the closed
    batches and the current one. *)
Lemma collect_steps_keep_content
    (step : collector -> option string -> collector)
    (column : list (option string)) :
  (forall st cell,
      concat (batches (step st cell)) ++ current_batch (step st cell)
      = (concat (batches st) ++ current_batch st)
        ++ concat (parsed_rows [cell])) ->
  let st := fold_left step column start in
  concat (batches st) ++ current_batch st = concat (parsed_rows column).
Proof.
  intros Hstep.
  apply (fold_left_prefix_inv step
           (fun pre st => concat (batches st) ++ current_batch st
                          = concat (parsed_rows pre))).
  - reflexivity.
  - intros pre cell st IH. rewrite Hstep, IH.
    unfold parsed_rows. now rewrite flat_map_app, concat_app.
Qed.

Lemma rows_step_keeps_content max st cell :
  concat (batches (rows_step max st cell))
  ++ current_batch (rows_step max st cell)
  = (concat (batches st) ++ current_batch st) ++ concat (parsed_rows [cell]).
Proof.
  destruct cell as [text|]; simpl; [|now rewrite app_nil_r].
  rewrite !app_nil_r.
  destruct (_ >=? max)%Z; simpl; [|now rewrite app_assoc].
  rewrite concat_app. simpl. now rewrite !app_nil_r.
Qed.

Lemma categories_step_keeps_content max st cell :
  concat (batches (categories_step max st cell))
  ++ current_batch (categories_step max st cell)
  = (concat (batches st) ++ current_batch st) ++ concat (parsed_rows [cell]).
Proof.
  destruct cell as [text|]; simpl; [|now rewrite app_nil_r].
  rewrite !app_nil_r.
  destruct (_ >? max)%Z; simpl; [|now rewrite app_assoc].
  rewrite concat_app. simpl. now rewrite !app_nil_r.
Qed.

Lemma finish_content st :
  concat (finish st) = concat (batches st) ++ current_batch st.
Proof.
  unfold finish. destruct (current_batch st) eqn:Hcur.
  - now rewrite app_nil_r.
  - rewrite concat_app. simpl. now rewrite app_nil_r.
Qed.

End Content.

Lemma collect_categories_content batch_by max_batch_size column :
  concat (Thematic.collect_categories batch_by max_batch_size column)
  = concat (Thematic.parsed_rows column).
Proof.
  unfold Thematic.collect_categories. cbv zeta. rewrite finish_content.
  destruct (batch_by =? "rows")%string.
  - apply collect_steps_keep_content, rows_step_keeps_content.
  - apply collect_steps_keep_content, categories_step_keeps_content.
Qed.

(** X1.  Whatever the policy and the limit, the batches of
    [collect_categories], read one after the other, are exactly the
    parsed categories of the rows in row order: no category is lost,
    repeated or moved. *)
Theorem collect_categories_keeps_content (batch_by : string)
    (max_batch_size : Z) (column : list (option string)) :
  concat (Thematic.collect_categories batch_by max_batch_size column)
  = concat (Thematic.parsed_rows column).
Proof. apply collect_categories_content. Qed.

Section Categories.
Import Thematic.

Lemma prefix_semicolon c s :
  prefix ";" (String c s) = if ascii_dec ";" c then true else false.
Proof. rewrite prefix_cons, prefix_nil. reflexivity. Qed.

(** No field of a split on [;] holds a [;]. *)
Lemma split_fields_without_semicolon s :
  forall skip,
    Forall (fun f => all_chars (not_char ";") f = true)
      (split_from ";" None skip s).
Proof.
  induction s as [|c s IH]; intros skip.
  - repeat constructor.
  - cbn [split_from]. destruct skip as [|k]; [|apply IH].
    rewrite prefix_semicolon.
    destruct (ascii_dec ";" c) as [_ | Hc].
    + constructor; [reflexivity | apply IH].
    + specialize (IH 0).
      destruct (split_from ";" None 0 s) as [|f fields];
        cbn [cons_head]; inversion IH; subst; constructor; auto;
        cbn [all_chars]; rewrite ?H1; try rewrite andb_true_r;
        apply negb_true_iff, Ascii.eqb_neq; congruence.
Qed.

Lemma parse_categories_well_formed text :
  Forall well_formed (parse_categories text).
Proof.
  unfold parse_categories, split.
  pose proof (split_fields_without_semicolon text 0) as Hfields.
  induction Hfields as [|f fields Hf _ IH]; [constructor|].
  cbn [flat_map]. apply Forall_app. split; [|exact IH].
  destruct (strip f) as [|a t] eqn:Hstrip; constructor; [|constructor].
  rewrite <- Hstrip. repeat split.
  - apply strip_idempotent.
  - rewrite Hstrip. discriminate.
  - now apply all_chars_strip.
Qed.

Lemma parsed_rows_well_formed column c :
  In c (concat (parsed_rows column)) -> well_formed c.
Proof.
  intros Hin. apply in_concat in Hin as (b & Hb & Hc).
  unfold parsed_rows in Hb. apply in_flat_map in Hb as ([text|] & _ & Hb);
    [|contradiction].
  destruct Hb as [<- | []].
  pose proof (parse_categories_well_formed text) as Hwf.
  rewrite Forall_forall in Hwf. now apply Hwf.
Qed.

End Categories.

(** X2.  Whatever the policy and the limit, every category in every batch
    of [collect_categories] is trimmed, is not empty and holds no [;]. *)
Theorem collect_categories_well_formed (batch_by : string)
    (max_batch_size : Z) (column : list (option string))
    (b : Thematic.batch) (c : string) :
  In b (Thematic.collect_categories batch_by max_batch_size column) ->
  In c b ->
  strip c = c /\ c <> EmptyString /\ all_chars (not_char ";") c = true.
Proof.
  intros Hb Hc. apply (parsed_rows_well_formed column).
  rewrite <- (collect_categories_content batch_by max_batch_size).
  apply in_concat. now exists b.
Qed.

Lemma collect_categories_well_formed_witness :
  strip "b" = "b" /\ "b" <> EmptyString
  /\ all_chars (not_char ";") "b" = true.
Proof.
  apply (collect_categories_well_formed "rows" 2 [Some " a ;; b "; None]
           ["a"; "b"] "b").
  - vm_compute. now left.
  - simpl. auto.
Defined.

(* ----------------------------------------------------------------- *)
(** ** Rendering a batch and parsing it back *)

Section Joining.
Import Thematic.

Lemma append_assoc (a b c : string) :
  ((a ++ b) ++ c)%string = (a ++ b ++ c)%string.
Proof. induction a as [|x a IH]; simpl; [reflexivity | now rewrite IH]. Qed.

Lemma split_without_semicolon x :
  all_chars (not_char ";") x = true -> split ";" x = [x].
Proof.
  unfold split. induction x as [|c x IH]; [reflexivity|].
  cbn [all_chars]. intros H. apply andb_prop in H as [Hc Hx].
  cbn [split_from]. rewrite prefix_semicolon.
  destruct (ascii_dec ";" c) as [<- | _]; [discriminate|].
  now rewrite IH.
Qed.

Lemma split_at_semicolon x y :
  all_chars (not_char ";") x = true ->
  split ";" (x ++ String ";" y)%string = x :: split ";" y.
Proof.
  unfold split. induction x as [|c x IH].
  - intros _. cbn [append split_from]. now rewrite prefix_semicolon.
  - cbn [all_chars]. intros H. apply andb_prop in H as [Hc Hx].
    cbn [append split_from]. rewrite prefix_semicolon.
    destruct (ascii_dec ";" c) as [<- | _]; [discriminate|].
    now rewrite IH.
Qed.

Lemma concat_cons sep x y l :
  String.concat sep (x :: y :: l)
  = (x ++ sep ++ String.concat sep (y :: l))%string.
Proof. reflexivity. Qed.

(** A batch rendered behind a pad that trimming removes parses back to
    the batch. *)
Lemma parse_padded_join l :
  forall pad x,
    (forall y, strip (pad ++ y)%string = strip y) ->
    all_chars (not_char ";") pad = true ->
    Forall well_formed (x :: l) ->
    parse_categories (pad ++ String.concat "; " (x :: l))%string = x :: l.
Proof.
  induction l as [|y l IH]; intros pad x Hpad Hsemi Hwf;
    inversion Hwf as [|? ? (Hstrip & Hne & Hx) Hrest]; subst.
  - unfold parse_categories. cbn [String.concat].
    rewrite split_without_semicolon
      by (rewrite all_chars_app, Hsemi, Hx; reflexivity).
    cbn [flat_map]. rewrite Hpad, Hstrip.
    destruct x; [contradiction | reflexivity].
  - rewrite concat_cons. cbn [append].
    rewrite <- append_assoc.
    unfold parse_categories.
    rewrite split_at_semicolon
      by (rewrite all_chars_app, Hsemi, Hx; reflexivity).
    cbn [flat_map]. rewrite Hpad, Hstrip.
    fold (parse_categories (String " " (String.concat "; " (y :: l)))).
    change (String " " (String.concat "; " (y :: l)))
      with (" " ++ String.concat "; " (y :: l))%string.
    rewrite (IH " " y); auto.
    destruct x; [contradiction | reflexivity].
Qed.

End Joining.

(** X3.  A batch of well-formed categories (trimmed, not empty, without
    [;]) that is rendered with ['; '.join], as in the prompts and the
    intermediate files, and parsed with the rule of [collect_categories]
    is the same batch again. *)
Theorem join_then_parse (categories : Thematic.batch) :
  Forall Thematic.well_formed categories ->
  Thematic.parse_categories (Thematic.join_categories categories)
  = categories.
Proof.
  intros Hwf. destruct categories as [|x l]; [reflexivity|].
  apply (parse_padded_join l EmptyString x); auto.
Qed.

Lemma join_then_parse_witness :
  Thematic.parse_categories
    (Thematic.join_categories ["time pressure"; "tools: IDE"])
  = ["time pressure"; "tools: IDE"].
Proof.
  apply join_then_parse.
  repeat constructor; discriminate.
Defined.

(* ----------------------------------------------------------------- *)
(** ** The whole run of [iterative_aggregation] *)

Section Accounting.
Import Thematic.

(** Halving, rounded up, takes one from the rounded-up logarithm. *)
Lemma log2_up_halve n :
  2 <= n -> Nat.log2_up n = S (Nat.log2_up (Nat.div2 (S n))).
Proof.
  intros Hn.
  pose proof (Nat.div2_odd (S n)) as Hhalf.
  set (m := Nat.div2 (S n)) in *.
  assert (Hb : Nat.b2n (Nat.odd (S n)) <= 1)
    by (destruct (Nat.odd (S n)); simpl; lia).
  assert (Hm : 1 <= m) by lia.
  apply Nat.log2_up_unique; [lia|]. cbn [Nat.pred].
  destruct (Nat.eq_dec m 1) as [-> | Hm1].
  - simpl. lia.
  - destruct (Nat.log2_up_spec m) as [Hlow Hhigh]; [lia|].
    assert (Hk : 1 <= Nat.log2_up m)
      by (apply Nat.log2_up_pos; lia).
    destruct (Nat.log2_up m) as [|k]; [lia|].
    rewrite Nat.pred_succ in Hlow. rewrite !Nat.pow_succ_r' in *.
    split; lia.
Qed.

Lemma saved_iterations_app tr tr' :
  saved_iterations (tr ++ tr') = saved_iterations tr ++ saved_iterations tr'.
Proof. unfold saved_iterations. apply flat_map_app. Qed.

Lemma merge_calls_app tr tr' :
  merge_calls (tr ++ tr') = merge_calls tr + merge_calls tr'.
Proof. unfold merge_calls. now rewrite filter_app, length_app. Qed.

Lemma aggregation_calls_app tr tr' :
  aggregation_calls (tr ++ tr')
  = aggregation_calls tr + aggregation_calls tr'.
Proof. unfold aggregation_calls. now rewrite filter_app, length_app. Qed.

Lemma final_files_app tr tr' :
  final_files (tr ++ tr') = final_files tr + final_files tr'.
Proof. unfold final_files. now rewrite filter_app, length_app. Qed.

(** What a list of merge calls counts for. *)
Lemma merge_calls_only calls :
  Forall merge_call calls ->
  rounds calls = 0 /\ saved_iterations calls = []
  /\ merge_calls calls = length calls
  /\ aggregation_calls calls = 0 /\ final_files calls = 0.
Proof.
  induction 1 as [|ev calls Hev _ (H1 & H2 & H3 & H4 & H5)];
    [repeat split|].
  destruct ev as [c t [|] | |]; try contradiction.
  unfold rounds, saved_iterations, merge_calls, aggregation_calls,
    final_files in *.
  simpl. repeat split; auto.
Qed.

Variable client : service.
Variable category_type : string.
Hypothesis client_answers : answers client.

(** A round with a service that answers adds one merge call for each
    full pair and nothing else. *)
Lemma merge_pairs_calls categories :
  forall tr, exists new calls,
    merge_pairs client category_type categories tr
    = (Returned new, tr ++ calls)
    /\ length new = Nat.div2 (S (length categories))
    /\ Forall merge_call calls
    /\ length calls = Nat.div2 (length categories).
Proof.
  induction categories as [|a|a b rest IH] using pair_ind; intros tr.
  - exists [], []. rewrite app_nil_r. repeat split; constructor.
  - exists [a], []. rewrite app_nil_r. repeat split; constructor.
  - cbn [merge_pairs]. unfold bind, get_analysis_from_claude.
    destruct (client_answers tr (a ++ b) category_type) as [text ->].
    destruct (IH (tr ++ [Analysis (a ++ b) category_type false]))
      as (merged & calls & -> & Hlen & Hcalls & Hcount).
    exists (split ";" text :: merged),
      (Analysis (a ++ b) category_type false :: calls).
    unfold ret. rewrite <- app_assoc. simpl.
    repeat split; auto. now constructor.
Qed.

(** The loop on any number of batches from one on. *)
Lemma reduction_loop_trace column n :
  forall fuel categories iteration tr,
    length categories <= n ->
    1 <= length categories ->
    length categories <= fuel ->
    let k := Nat.log2_up (length categories) in
    exists final new,
      reduction_loop client fuel column category_type categories
        iteration tr
      = (Returned ([final], (iteration + Z.of_nat k)%Z), tr ++ new)
      /\ rounds new = k
      /\ saved_iterations new
         = map (fun j => (iteration + Z.of_nat j)%Z) (seq 0 k)
      /\ merge_calls new = length categories - 1
      /\ aggregation_calls new = 0
      /\ final_files new = 0.
Proof.
  induction n as [|n IH]; intros fuel categories iteration tr Hn Hpos Hfuel;
    [lia|].
  destruct fuel as [|fuel]; [lia|]. cbn [reduction_loop].
  destruct (1 <? length categories)%nat eqn:Hlen.
  - apply Nat.ltb_lt in Hlen. unfold bind. rewrite merge_round_pairs.
    destruct (merge_pairs_calls categories tr)
      as (new & calls & -> & Hnew & Hcalls & Hcount).
    unfold save_intermediate_results, emit.
    pose proof (div2_succ_lt (length categories) Hlen) as Hless.
    assert (Hnew1 : 1 <= length new).
    { rewrite Hnew. destruct (length categories) as [|[|m]]; simpl; lia. }
    destruct (IH fuel new (iteration + 1)%Z
                ((tr ++ calls) ++ [SaveIteration iteration new column]))
      as (final & rest & -> & Hr & Hs & Hm & Ha & Hf); try lia.
    cbv zeta. rewrite (log2_up_halve (length categories) Hlen), <- Hnew.
    set (k := Nat.log2_up (length new)) in *.
    exists final, (calls ++ [SaveIteration iteration new column] ++ rest).
    destruct (merge_calls_only calls Hcalls)
      as (Hc1 & Hc2 & Hc3 & Hc4 & Hc5).
    rewrite !rounds_app, !saved_iterations_app, !merge_calls_app,
      !aggregation_calls_app, !final_files_app.
    rewrite Hc1, Hc2, Hc3, Hc4, Hc5, Hr, Hs, Hm, Ha, Hf, Hcount.
    split; [|split; [|split; [|split; [|split]]]].
    + rewrite <- !app_assoc. do 3 f_equal. lia.
    + reflexivity.
    + cbn [seq map app saved_iterations flat_map]. f_equal.
      * f_equal. lia.
      * rewrite <- seq_shift, map_map. apply map_ext. intros j. lia.
    + change (merge_calls [SaveIteration iteration new column]) with 0.
      pose proof (Nat.div2_odd (length categories)) as Hodd.
      pose proof (Nat.div2_odd (S (length categories))) as Hodd'.
      rewrite Nat.odd_succ, <- Nat.negb_odd in Hodd'.
      rewrite Hnew.
      destruct (Nat.odd (length categories)); simpl in *; lia.
    + reflexivity.
    + reflexivity.
  - apply Nat.ltb_ge in Hlen.
    destruct categories as [|b [|c rest]]; simpl in *; try lia.
    exists b, []. rewrite app_nil_r, Z.add_0_r.
    repeat split; reflexivity.
Qed.

End Accounting.

Lemma answers_all_merges client :
  Thematic.answers_all client -> Thematic.answers client.
Proof. intros H tr categories category_type. apply H. Qed.

(** The whole reduction with a service that answers every call. *)
Lemma reduce_trace (client : Thematic.service)
    (categories : list Thematic.batch) (column category_type : string)
    (tr : list Thematic.event) :
  Thematic.answers_all client ->
  1 <= length categories ->
  let k := Nat.log2_up (length categories) in
  exists loop final text,
    Thematic.reduce client categories column category_type tr
    = (Returned tt,
       tr ++ loop ++ [Thematic.Analysis final category_type true;
                      Thematic.SaveFinal column text])
    /\ client (tr ++ loop) final category_type true = Thematic.Text text
    /\ Thematic.rounds loop = k
    /\ Thematic.saved_iterations loop
       = map (fun j => (1 + Z.of_nat j)%Z) (seq 0 k)
    /\ Thematic.merge_calls loop = length categories - 1
    /\ Thematic.aggregation_calls loop = 0
    /\ Thematic.final_files loop = 0.
Proof.
  intros Hall Hpos k.
  destruct (reduction_loop_trace client category_type
              (answers_all_merges client Hall) column (length categories)
              (length categories) categories 1%Z tr)
    as (final & loop & Hrun & Hfacts); auto.
  destruct (Hall (tr ++ loop) final category_type true) as [text Htext].
  exists loop, final, text. split; [|split; [exact Htext | exact Hfacts]].
  unfold Thematic.reduce, bind. rewrite Hrun. cbn [fst Thematic.item0].
  unfold ret, Thematic.get_analysis_from_claude, emit. rewrite Htext.
  now rewrite <- !app_assoc.
Qed.

(** X4.  With a service that answers, the reduction loop started on any
    number [N >= 1] of batches returns exactly one batch after exactly
    [ceil(log2(N))] rounds, each of which writes one intermediate
    file. *)
Theorem reduction_rounds_any_count (client : Thematic.service)
    (column category_type : string) (categories : list Thematic.batch)
    (iteration : Z) (tr : list Thematic.event) :
  Thematic.answers client ->
  1 <= length categories ->
  exists final new,
    Thematic.reduction_loop client (length categories) column
      category_type categories iteration tr
    = (Returned
         ([final],
          (iteration + Z.of_nat (Nat.log2_up (length categories)))%Z),
       tr ++ new)
    /\ Thematic.rounds new = Nat.log2_up (length categories).
Proof.
  intros Hanswers Hpos.
  destruct (reduction_loop_trace client category_type Hanswers column
              (length categories) (length categories) categories
              iteration tr)
    as (final & new & Hrun & Hrounds & _); auto.
  now exists final, new.
Qed.

Lemma reduction_rounds_any_count_witness :
  exists final new,
    Thematic.reduction_loop (fun _ _ _ _ => Thematic.Text "x;y") 3 "col"
      "type" [["a"]; ["b"]; ["c"]] 1%Z []
    = (Returned ([final], (1 + Z.of_nat (Nat.log2_up 3))%Z), [] ++ new)
    /\ Thematic.rounds new = Nat.log2_up 3.
Proof.
  apply (reduction_rounds_any_count (fun _ _ _ _ => Thematic.Text "x;y")
           "col" "type" [["a"]; ["b"]; ["c"]] 1%Z []).
  - intros tr categories category_type. now exists "x;y".
  - simpl. lia.
Defined.

(** X5.  In a run of [iterative_aggregation] that succeeds the
    intermediate files are numbered 1, 2, ..., [ceil(log2(N))], in the
    order of writing. *)
Theorem iteration_files_numbered (client : Thematic.service)
    (categories : list Thematic.batch) (column category_type : string)
    (tr : list Thematic.event) :
  Thematic.answers_all client ->
  1 <= length categories ->
  exists new,
    Thematic.reduce client categories column category_type tr
    = (Returned tt, tr ++ new)
    /\ Thematic.saved_iterations new
       = map Z.of_nat (seq 1 (Nat.log2_up (length categories))).
Proof.
  intros Hall Hpos.
  destruct (reduce_trace client categories column category_type tr Hall Hpos)
    as (loop & final & text & Hrun & _ & _ & Hsaved & _).
  eexists. split; [exact Hrun|].
  rewrite saved_iterations_app, Hsaved. cbn [Thematic.saved_iterations
    flat_map app]. rewrite app_nil_r, <- seq_shift, map_map.
  apply map_ext. intros j. lia.
Qed.

Lemma iteration_files_numbered_witness :
  exists new,
    Thematic.reduce (fun _ _ _ _ => Thematic.Text "x;y")
      [["a"]; ["b"]; ["c"]] "col" "type" []
    = (Returned tt, [] ++ new)
    /\ Thematic.saved_iterations new = map Z.of_nat (seq 1 (Nat.log2_up 3)).
Proof.
  apply (iteration_files_numbered (fun _ _ _ _ => Thematic.Text "x;y")
           [["a"]; ["b"]; ["c"]] "col" "type" []).
  - intros tr categories category_type is_aggregation. now exists "x;y".
  - simpl. lia.
Defined.



(* ----------------------------------------------------------------- *)
(** ** Failures of the service during [iterative_aggregation] *)

Section Failures.
Import Thematic.

Variable client : service.
Variable category_type : string.

Lemma final_files_call tr batch type is_aggregation :
  final_files (tr ++ [Analysis batch type is_aggregation]) = final_files tr.
Proof. unfold final_files. rewrite filter_app, length_app. simpl. lia. Qed.

Lemma final_files_iteration tr iteration categories column :
  final_files (tr ++ [SaveIteration iteration categories column])
  = final_files tr.
Proof. unfold final_files. rewrite filter_app, length_app. simpl. lia. Qed.

Lemma merge_pairs_outcome categories :
  forall tr out tr',
    merge_pairs client category_type categories tr = (out, tr') ->
    final_files tr' = final_files tr
    /\ match out with
       | Returned _ => True
       | Raised e => ends_with_failed_call client tr' e
       end.
Proof.
  induction categories as [|a|a b rest IH] using pair_ind;
    intros tr out tr' Hrun.
  - inversion Hrun; subst. now split.
  - inversion Hrun; subst. now split.
  - cbn [merge_pairs] in Hrun.
    unfold bind, get_analysis_from_claude in Hrun.
    destruct (client tr (a ++ b) category_type false) as [text | e] eqn:Hcall.
    + destruct (merge_pairs client category_type rest
                  (tr ++ [Analysis (a ++ b) category_type false]))
        as [[merged | e] tr1] eqn:Hrest;
        apply IH in Hrest as [Hfiles Hout];
        rewrite final_files_call in Hfiles;
        inversion Hrun; subst; split; auto.
    + inversion Hrun; subst. split.
      * apply final_files_call.
      * now exists tr, (a ++ b), category_type, false.
Qed.

Lemma reduction_loop_outcome column fuel :
  forall categories iteration tr out tr',
    reduction_loop client fuel column category_type categories
      iteration tr = (out, tr') ->
    final_files tr' = final_files tr
    /\ match out with
       | Returned (final, _) =>
           (1 <= length categories -> 1 <= length final)
           /\ (categories = [] -> final = [] /\ tr' = tr)
       | Raised e => ends_with_failed_call client tr' e
       end.
Proof.
  induction fuel as [|fuel IH]; intros categories iteration tr out tr' Hrun.
  - inversion Hrun; subst. split; [reflexivity|]. now split.
  - cbn [reduction_loop] in Hrun.
    destruct (1 <? length categories)%nat eqn:Hlen.
    + apply Nat.ltb_lt in Hlen. unfold bind in Hrun.
      rewrite merge_round_pairs in Hrun.
      destruct (merge_pairs client category_type categories tr)
        as [[new | e] tr1] eqn:Hround.
      * pose proof (merge_pairs_length _ _ _ _ _ _ Hround) as Hnew.
        apply merge_pairs_outcome in Hround as [Hfiles _].
        unfold save_intermediate_results, emit in Hrun.
        apply IH in Hrun as [Hfiles' Hout].
        rewrite final_files_iteration in Hfiles'.
        split; [congruence|].
        destruct out as [[final it] | e]; [|exact Hout].
        destruct Hout as [Hpos _]. split.
        -- intros _. apply Hpos. rewrite Hnew.
           destruct (length categories) as [|[|m]]; simpl; lia.
        -- intros ->. simpl in Hlen. lia.
      * apply merge_pairs_outcome in Hround as [Hfiles Hout].
        inversion Hrun; subst. now split.
    + inversion Hrun; subst. split; [reflexivity|]. now split.
Qed.

Lemma reduce_outcome categories column tr out tr' :
  reduce client categories column category_type tr = (out, tr') ->
  match out with
  | Returned _ => final_files tr' = S (final_files tr)
  | Raised e =>
      final_files tr' = final_files tr
      /\ ((categories = [] /\ e = IndexError /\ tr' = tr)
          \/ ends_with_failed_call client tr' e)
  end.
Proof.
  unfold reduce, bind. intros Hrun.
  destruct (reduction_loop client (length categories) column category_type
              categories 1%Z tr) as [[[final it] | e] tr1] eqn:Hloop;
    apply reduction_loop_outcome in Hloop as [Hfiles Hout].
  - destruct Hout as [Hpos Hnil]. cbn [fst] in Hrun.
    destruct final as [|first rest]; cbn [item0] in Hrun.
    + inversion Hrun; subst. split; [exact Hfiles|]. left.
      destruct categories as [|b l]; [|simpl in Hpos; lia].
      destruct Hnil as [_ ->]; auto.
    + unfold ret, get_analysis_from_claude, emit in Hrun.
      destruct (client tr1 first category_type true) as [text | e] eqn:Hcall;
        inversion Hrun; subst.
      * change (final_files ((tr1 ++ [Analysis first category_type true])
                             ++ [SaveFinal column text])
                = S (final_files tr)).
        rewrite final_files_app, final_files_call, Hfiles.
        unfold final_files. simpl. lia.
      * split; [rewrite final_files_call; exact Hfiles|]. right.
        now exists tr1, first, category_type, true.
  - inversion Hrun; subst. split; [exact Hfiles | now right].
Qed.

End Failures.

(** X7.  Whatever the service does, a run of [iterative_aggregation]
    writes its final file exactly when it returns.  When it raises, no
    final file has been written, and either there was no batch at all
    ([IndexError], nothing done) or the last thing done is the service
    call that failed, whose exception it is: no merge is retried and
    nothing follows a failure. *)
Theorem reduce_failure_stops_run (client : Thematic.service)
    (categories : list Thematic.batch) (column category_type : string)
    (tr tr' : list Thematic.event) (out : outcome unit) :
  Thematic.reduce client categories column category_type tr = (out, tr') ->
  match out with
  | Returned _ => Thematic.final_files tr' = S (Thematic.final_files tr)
  | Raised e =>
      Thematic.final_files tr' = Thematic.final_files tr
      /\ ((categories = [] /\ e = IndexError /\ tr' = tr)
          \/ exists pre batch type is_aggregation,
               tr' = pre ++ [Thematic.Analysis batch type is_aggregation]
               /\ client pre batch type is_aggregation = Thematic.Fails e)
  end.
Proof. apply reduce_outcome. Qed.

Lemma reduce_failure_stops_run_witness :
  let client : Thematic.service :=
    fun tr _ _ _ => if (length tr <? 2)%nat then Thematic.Text "x"
                    else Thematic.Fails ServiceError in
  let tr' := [Thematic.Analysis ["a"; "b"] "type" false;
              Thematic.SaveIteration 1 [["x"]; ["c"]] "col";
              Thematic.Analysis ["x"; "c"] "type" false] in
  Thematic.final_files tr' = Thematic.final_files []
  /\ (([["a"]; ["b"]; ["c"]] = [] /\ ServiceError = IndexError /\ tr' = [])
      \/ exists pre batch type is_aggregation,
           tr' = pre ++ [Thematic.Analysis batch type is_aggregation]
           /\ client pre batch type is_aggregation
              = Thematic.Fails ServiceError).
Proof.
  intros client tr'.
  apply (reduce_failure_stops_run client [["a"]; ["b"]; ["c"]] "col" "type"
           [] tr' (Raised ServiceError)).
  reflexivity.
Defined.

(* ----------------------------------------------------------------- *)
(** ** [analyze_in_batches] *)

Section BatchAnalysis.
Import Thematic.

(** The count of [analyze_in_batches] is the number of categories that
    [collect_categories] would parse. *)
Lemma count_categories_parse analysis :
  count_categories analysis
  = Z.of_nat (length (parse_categories analysis)).
Proof.
  unfold count_categories, parse_categories. f_equal.
  induction (split ";" analysis) as [|f fields IH]; [reflexivity|].
  cbn [filter flat_map]. rewrite length_app, <- IH.
  now destruct (strip f).
Qed.

Variable client : service.
Variable category_type : string.
Hypothesis client_answers : answers client.

Lemma analyze_loop categories :
  forall acc total tr,
    exists analyses calls,
      for_each (analyze_step client category_type) categories
        (acc, total) tr
      = (Returned
           (acc ++ analyses,
            (total + Z.of_nat (length (flat_map parse_categories analyses)))%Z),
         tr ++ calls)
      /\ length analyses = length categories
      /\ Forall merge_call calls
      /\ length calls = length categories.
Proof.
  induction categories as [|b categories IH]; intros acc total tr.
  - exists [], []. rewrite !app_nil_r, Z.add_0_r. repeat split; constructor.
  - cbn [for_each]. unfold bind at 1. unfold analyze_step at 1.
    unfold bind, get_analysis_from_claude.
    destruct (client_answers tr b category_type) as [text ->].
    unfold ret. cbn [fst snd].
    destruct (IH (acc ++ [text]) (total + count_categories text)%Z
                (tr ++ [Analysis b category_type false]))
      as (analyses & calls & -> & Hlen & Hcalls & Hcount).
    exists (text :: analyses), (Analysis b category_type false :: calls).
    rewrite <- !app_assoc. cbn [app flat_map length].
    rewrite count_categories_parse, length_app, Nat2Z.inj_add, Z.add_assoc.
    repeat split; auto. now constructor.
Qed.

End BatchAnalysis.

(** X8.  With a service that answers, [analyze_in_batches] makes one
    call with the analysis template for each batch and no other, returns
    one analysis for each batch, and its total is the number of
    categories that [collect_categories] would parse out of these
    analyses (trimmed, non-empty tokens). *)
Theorem analyze_in_batches_counts (client : Thematic.service)
    (categories : list Thematic.batch) (category_type : string)
    (tr : list Thematic.event) :
  Thematic.answers client ->
  exists analyses new,
    Thematic.analyze_in_batches client categories category_type tr
    = (Returned
         (analyses,
          Z.of_nat (length (flat_map Thematic.parse_categories analyses))),
       tr ++ new)
    /\ length analyses = length categories
    /\ Thematic.merge_calls new = length categories
    /\ Thematic.service_calls new = length categories.
Proof.
  intros Hanswers.
  destruct (analyze_loop client category_type Hanswers categories [] 0%Z tr)
    as (analyses & calls & Hrun & Hlen & Hcalls & Hcount).
  exists analyses, calls. split; [exact Hrun|]. split; [exact Hlen|].
  destruct (merge_calls_only calls Hcalls) as (_ & _ & Hm & _ & _).
  split; [congruence|].
  rewrite <- Hcount. clear - Hcalls.
  induction Hcalls as [|ev calls Hev _ IH]; [reflexivity|].
  destruct ev as [c t [|] | |]; try contradiction.
  unfold Thematic.service_calls in *. simpl. now rewrite IH.
Qed.

Lemma analyze_in_batches_counts_witness :
  exists analyses new,
    Thematic.analyze_in_batches (fun _ _ _ _ => Thematic.Text "x; ;y")
      [["a"]; ["b"]] "type" []
    = (Returned
         (analyses,
          Z.of_nat (length (flat_map Thematic.parse_categories analyses))),
       [] ++ new)
    /\ length analyses = length [["a"]; ["b"]]
    /\ Thematic.merge_calls new = length [["a"]; ["b"]]
    /\ Thematic.service_calls new = length [["a"]; ["b"]].
Proof.
  apply (analyze_in_batches_counts (fun _ _ _ _ => Thematic.Text "x; ;y")
           [["a"]; ["b"]] "type" []).
  intros tr categories category_type. now exists "x; ;y".
Defined.

(* ----------------------------------------------------------------- *)
(** ** [clean_text]: what a cleaned text looks like *)

(** X9.  Whatever the input, the result of [clean_text] holds no single
    or double quote and no backslash, its only white space is the plain
    space, and it has no white space at either end. *)
Theorem clean_text_output_tidy (text : string) :
  let cleaned := CategoryMaker.clean_text text in
  all_chars (not_char "'") cleaned = true
  /\ all_chars (not_char "034") cleaned = true
  /\ all_chars (not_char "\") cleaned = true
  /\ all_chars plain_space cleaned = true
  /\ strip cleaned = cleaned.
Proof. apply clean_text_tidy. Qed.

(** X10.  Cleaning an already clean text is a no-op: a text without
    quotes and backslashes, with single plain spaces only and none at
    either end, is returned as it is. *)
Theorem clean_text_keeps_normal_text (text : string) :
  CategoryMaker.normal text -> CategoryMaker.clean_text text = text.
Proof. apply clean_text_normal. Qed.

Lemma clean_text_keeps_normal_text_witness :
  CategoryMaker.clean_text "Primary: cat1, cat2 --- Secondary: cat3"
  = "Primary: cat1, cat2 --- Secondary: cat3".
Proof.
  apply clean_text_keeps_normal_text.
  repeat split; reflexivity.
Defined.

(** X11.  On a text without single and double quotes [clean_text] is
    idempotent. *)
Theorem clean_text_idempotent_on_unquoted (text : string) :
  all_chars (not_char "'") text = true ->
  all_chars (not_char "034") text = true ->
  CategoryMaker.clean_text (CategoryMaker.clean_text text)
  = CategoryMaker.clean_text text.
Proof. apply clean_text_idempotent_without_quotes. Qed.

Lemma clean_text_idempotent_on_unquoted_witness :
  CategoryMaker.clean_text (CategoryMaker.clean_text "  a \n  b\\ ")
  = CategoryMaker.clean_text "  a \n  b\\ ".
Proof.
  apply clean_text_idempotent_on_unquoted; reflexivity.
Defined.

(** X12.  Whatever the input, a second cleaning reaches a fixed point:
    cleaning three times is cleaning twice. *)
Theorem clean_text_twice_is_enough (text : string) :
  CategoryMaker.clean_text
    (CategoryMaker.clean_text (CategoryMaker.clean_text text))
  = CategoryMaker.clean_text (CategoryMaker.clean_text text).
Proof. apply clean_text_settles. Qed.

Section Unwrapping.
Import CategoryMaker.

Lemma prefix_app a b : prefix a (a ++ b)%string = true.
Proof.
  induction a as [|c a IH]; [apply prefix_nil|].
  cbn [append]. rewrite prefix_cons.
  now destruct (ascii_dec c c).
Qed.

Lemma sub_from_match matcher repl c s k :
  matcher (String c s) = Some (S k) ->
  sub_from matcher repl 0 (String c s)
  = (repl ++ sub_from matcher repl 0 (drop k s))%string.
Proof.
  intros Hmatch. cbn [sub_from]. rewrite Hmatch.
  now rewrite sub_from_skip.
Qed.

(** Inside a body without quotes and opening parentheses, and across its
    end, no marker starts. *)
Lemma content_block_inside_body c t :
  all_chars (not_char "'") (String c t) = true ->
  all_chars (not_char "(") (String c t) = true ->
  content_block (String c (t ++ "', type='text')]")) = None.
Proof.
  intros Hquote Hparen.
  assert (Hall : all_chars (not_char "(")
                   (String c (t ++ "', type='text')]")) = true).
  { change (String c (t ++ "', type='text')]"))
      with (String c t ++ "', type='text')]")%string.
    now rewrite all_chars_app, Hparen. }
  assert (Hc : "'"%char <> c).
  { cbn [all_chars] in Hquote. apply andb_prop in Hquote as [Hc _].
    unfold not_char in Hc. apply negb_true_iff, Ascii.eqb_neq in Hc.
    congruence. }
  unfold content_block.
  repeat match goal with
         | |- context [prefix ?lit (String c ?rest)] =>
             let H := fresh "Hpre" in
             destruct (prefix lit (String c rest)) eqn:H;
             [first
                [ apply (prefix_all_chars (not_char "(") lit) in H;
                  [discriminate | exact Hall]
                | rewrite prefix_cons in H;
                  destruct (ascii_dec "'" c); [contradiction | discriminate] ]
             |]
         end.
  reflexivity.
Qed.

Lemma unwrap_body body :
  all_chars (not_char "'") body = true ->
  all_chars (not_char "(") body = true ->
  sub_from content_block EmptyString 0 (body ++ "', type='text')]")
  = body.
Proof.
  induction body as [|c t IH]; intros Hquote Hparen; [reflexivity|].
  cbn [append sub_from].
  rewrite (content_block_inside_body c t Hquote Hparen).
  cbn [all_chars] in *.
  apply andb_prop in Hquote as [_ Hquote].
  apply andb_prop in Hparen as [_ Hparen].
  now rewrite IH.
Qed.

Lemma unwrap_content_block body :
  all_chars (not_char "'") body = true ->
  all_chars (not_char "(") body = true ->
  sub_from content_block EmptyString 0 (content_block_of body) = body.
Proof.
  intros Hquote Hparen. unfold content_block_of.
  change ("[ContentBlock(text='" ++ body ++ "', type='text')]")%string
    with (String "[" ("ContentBlock(text='" ++ body
                      ++ "', type='text')]")%string).
  rewrite (sub_from_match content_block EmptyString "["
             ("ContentBlock(text='" ++ body ++ "', type='text')]") 19).
  - cbn [append drop]. now apply unwrap_body.
  - unfold content_block.
    change (String "[" ("ContentBlock(text='" ++ body
                        ++ "', type='text')]"))
      with ("[ContentBlock(text='" ++ body ++ "', type='text')]")%string.
    now rewrite prefix_app.
Qed.

End Unwrapping.

(** X13.  [clean_text] removes the wrapper of the service's structured
    content: for a body without single quotes and opening parentheses,
    cleaning [[ContentBlock(text='body', type='text')]] is cleaning the
    body. *)
Theorem clean_text_unwraps_content_block (body : string) :
  all_chars (not_char "'") body = true ->
  all_chars (not_char "(") body = true ->
  CategoryMaker.clean_text (CategoryMaker.content_block_of body)
  = CategoryMaker.clean_text body.
Proof.
  intros Hquote Hparen.
  rewrite !clean_text_steps. unfold CategoryMaker.unescaped.
  rewrite (unwrap_content_block body Hquote Hparen).
  now rewrite (sub_from_absent _ _ _ content_block_absent body Hquote).
Qed.

Lemma clean_text_unwraps_content_block_witness :
  CategoryMaker.clean_text
    (CategoryMaker.content_block_of "Primary: a\n---\nSecondary: b")
  = CategoryMaker.clean_text "Primary: a\n---\nSecondary: b".
Proof.
  apply clean_text_unwraps_content_block; reflexivity.
Defined.

(* ----------------------------------------------------------------- *)
(** ** [process_row]: the prompt and the result *)

Section Prompt.
Import CategoryMaker.

Variable client : service.
Variable cfg : config.

Lemma append_nil_r (s : string) : (s ++ EmptyString)%string = s.
Proof. induction s as [|c s IH]; simpl; [reflexivity | now rewrite IH]. Qed.

Lemma concat_empty_cons x l :
  String.concat EmptyString (x :: l)
  = (x ++ String.concat EmptyString l)%string.
Proof. destruct l; [now rewrite append_nil_r | reflexivity]. Qed.

Lemma prompt_step_text r mapping :
  forall st,
    fst (fold_left (prompt_step r) mapping st)
    = (fst st ++ String.concat EmptyString (prompt_lines r mapping))%string.
Proof.
  induction mapping as [|[col topic] mapping IH]; intros st.
  - simpl. now rewrite append_nil_r.
  - cbn [fold_left]. rewrite IH. unfold prompt_lines. cbn [flat_map fst snd].
    unfold prompt_step.
    destruct (field r col) as [v|]; [|reflexivity].
    cbn [fst app]. rewrite concat_empty_cons.
    now rewrite !append_assoc.
Qed.

Lemma tidy_marker_no_input : tidy "No input data".
Proof. repeat split; reflexivity. Qed.

Lemma tidy_marker_error : tidy "Processing error".
Proof. repeat split; reflexivity. Qed.

Lemma tidy_response content : tidy (response_text content).
Proof.
  destruct content as [|block content]; [|apply clean_text_tidy].
  repeat split; reflexivity.
Qed.


(** Every run of [process_row]: a tidy string, after at most three
    calls; without data the marker and no event. *)
Lemma process_row_run r tr :
  exists v new,
    process_row client cfg r tr = (Returned (Some v), tr ++ new)
    /\ tidy v
    /\ service_calls new <= 3
    /\ (has_data cfg r = false -> v = "No input data" /\ new = []).
Proof.
  unfold process_row, has_data.
  destruct (build_prompt cfg r) as [prompt flag]. cbn [snd].
  destruct flag; cbn [negb].
  2:{ exists "No input data", []. rewrite app_nil_r.
      split; [reflexivity|]. split; [apply tidy_marker_no_input|].
      split; [unfold service_calls; simpl; lia | auto]. }
  set (system := system_text cfg).
  set (call := Create system prompt).
  cbn [range seq map attempts].
  unfold bind at 1. rewrite attempt_body_run. fold system call.
  destruct (client tr system prompt) as [content | e].
  { exists (response_text content), [call].
    split; [reflexivity|]. split; [apply tidy_response|].
    split; [unfold service_calls, call; simpl; lia | discriminate]. }
  cbn [Z.of_nat Z.ltb Z.sub Z.add Z.opp Z.pos_sub Z.compare Pos.compare
       Pos.compare_cont Z.pow Z.pow_pos Pos.of_succ_nat Pos.succ
       Pos.pred_double Z.succ_double Z.pred_double Z.double].
  unfold bind at 1. rewrite attempt_body_run. fold system call.
  destruct (client ((tr ++ [call]) ++ [Sleep 1]) system prompt)
    as [content | e1].
  { exists (response_text content), [call; Sleep 1; call].
    rewrite <- !app_assoc.
    split; [reflexivity|]. split; [apply tidy_response|].
    split; [unfold service_calls, call; simpl; lia | discriminate]. }
  cbn [Z.of_nat Z.ltb Z.sub Z.add Z.opp Z.pos_sub Z.compare Pos.compare
       Pos.compare_cont Z.pow Z.pow_pos Pos.of_succ_nat Pos.succ
       Pos.pred_double Z.succ_double Z.pred_double Z.double Pos.iter
       Z.mul Pos.mul].
  unfold bind at 1. rewrite attempt_body_run. fold system call.
  destruct (client ((((tr ++ [call]) ++ [Sleep 1]) ++ [call])
                    ++ [Sleep 2]) system prompt) as [content | e2].
  { exists (response_text content), [call; Sleep 1; call; Sleep 2; call].
    rewrite <- !app_assoc.
    split; [reflexivity|]. split; [apply tidy_response|].
    split; [unfold service_calls, call; simpl; lia | discriminate]. }
  exists "Processing error", [call; Sleep 1; call; Sleep 2; call].
  rewrite <- !app_assoc.
  split; [reflexivity|]. split; [apply tidy_marker_error|].
  split; [unfold service_calls, call; simpl; lia | discriminate].
Qed.

End Prompt.

(** X14.  The prompt that [process_row] builds is the analysis context,
    an empty line, and then, in the order of the column mapping, one
    line [topic: value] for each mapped column under which the row holds
    a value; the other mapped columns leave no trace in it. *)
Theorem process_row_prompt (cfg : CategoryMaker.config)
    (r : CategoryMaker.row) :
  fst (CategoryMaker.build_prompt cfg r)
  = (CategoryMaker.analysis_context cfg
     ++ CategoryMaker.newline ++ CategoryMaker.newline
     ++ String.concat EmptyString
          (CategoryMaker.prompt_lines r (CategoryMaker.column_mapping cfg)))
    %string.
Proof.
  unfold CategoryMaker.build_prompt. rewrite prompt_step_text.
  cbn [fst]. now rewrite !append_assoc.
Qed.

(** X15.  Whatever the row and whatever the service does, [process_row]
    returns a string (it neither raises nor returns [None]), and this
    string, an analysis or one of the three markers, holds no quote and
    no backslash and is trimmed. *)
Theorem process_row_returns_tidy_text (client : CategoryMaker.service)
    (cfg : CategoryMaker.config) (r : CategoryMaker.row)
    (tr : list CategoryMaker.event) :
  exists v new,
    CategoryMaker.process_row client cfg r tr
    = (Returned (Some v), tr ++ new)
    /\ all_chars (not_char "'") v = true
    /\ all_chars (not_char "034") v = true
    /\ all_chars (not_char "\") v = true
    /\ strip v = v.
Proof.
  destruct (process_row_run client cfg r tr)
    as (v & new & Hrun & (Hq & Hd & Hb & _ & Hstrip) & _).
  now exists v, new.
Qed.

(* ----------------------------------------------------------------- *)
(** ** [extract_elements] on a response of the expected shape *)

Section Labelled.
Import CategoryMaker.

Lemma not_char_neq c a : not_char c a = true -> c <> a.
Proof.
  unfold not_char. intros H Heq. subst a.
  now rewrite Ascii.eqb_refl in H.
Qed.

Lemma prefix_dashes c s :
  not_char "-" c = true -> prefix "---" (String c s) = false.
Proof.
  intros Hc. apply not_char_neq in Hc. rewrite prefix_cons.
  now destruct (ascii_dec "-" c).
Qed.

Lemma split_without_dash y :
  all_chars (not_char "-") y = true -> split "---" y = [y].
Proof.
  unfold split. induction y as [|c y IH]; [reflexivity|].
  cbn [all_chars]. intros H. apply andb_prop in H as [Hc Hy].
  cbn [split_from]. rewrite (prefix_dashes c y Hc).
  now rewrite IH.
Qed.

Lemma split_at_dashes x y :
  all_chars (not_char "-") x = true ->
  split "---" (x ++ "---" ++ y)%string = x :: split "---" y.
Proof.
  unfold split. induction x as [|c x IH].
  - intros _. cbn [append split_from].
    rewrite !prefix_cons, prefix_nil. cbn [String.length Nat.sub].
    now rewrite split_from_skip.
  - cbn [all_chars]. intros H. apply andb_prop in H as [Hc Hx].
    change (String c x ++ "---" ++ y)%string
      with (String c (x ++ "---" ++ y)%string).
    cbn [split_from]. rewrite (prefix_dashes c _ Hc).
    now rewrite (IH Hx).
Qed.

Lemma after_colon_label label rest :
  all_chars (not_char ":") label = true ->
  after_colon (label ++ String ":" rest) = Some rest.
Proof.
  induction label as [|c label IH]; [reflexivity|].
  cbn [all_chars]. intros H. apply andb_prop in H as [Hc Hl].
  apply not_char_neq in Hc. cbn [append after_colon].
  destruct (ascii_dec ":" c); [contradiction | now apply IH].
Qed.

Lemma drop_label_labelled label rest :
  all_chars (not_char ":") label = true ->
  drop_label (strip (label ++ String ":" rest)) = strip rest.
Proof.
  intros Hlabel. rewrite drop_label_strip.
  unfold without_label.
  now rewrite after_first_colon, (after_colon_label label rest Hlabel).
Qed.

End Labelled.

(** X16.  A response of the expected shape is taken apart as intended:
    for [label1: text1 --- label2: text2], where the labels hold no
    colon and neither labels nor texts hold a dash, the primary part is
    [text1] trimmed and the secondary part [text2] trimmed; colons inside
    the texts are kept. *)
Theorem extract_elements_labelled (label1 text1 label2 text2 : string) :
  all_chars (not_char ":") label1 = true ->
  all_chars (not_char ":") label2 = true ->
  all_chars (not_char "-") label1 = true ->
  all_chars (not_char "-") text1 = true ->
  all_chars (not_char "-") label2 = true ->
  all_chars (not_char "-") text2 = true ->
  CategoryMaker.extract_elements
    ((label1 ++ String ":" text1) ++ "---" ++ (label2 ++ String ":" text2))
  = CategoryMaker.Elements (strip text1) (strip text2).
Proof.
  intros Hc1 Hc2 Hl1 Ht1 Hl2 Ht2.
  unfold CategoryMaker.extract_elements.
  rewrite split_at_dashes
    by (rewrite all_chars_app; cbn [all_chars]; now rewrite Hl1, Ht1).
  rewrite split_without_dash
    by (rewrite all_chars_app; cbn [all_chars]; now rewrite Hl2, Ht2).
  now rewrite !drop_label_labelled.
Qed.

Lemma extract_elements_labelled_witness :
  CategoryMaker.extract_elements
    (("Primary" ++ String ":" " cat1, cat2 ")
     ++ "---" ++ (" Secondary" ++ String ":" " cat3: x"))
  = CategoryMaker.Elements (strip " cat1, cat2 ") (strip " cat3: x").
Proof.
  apply extract_elements_labelled; reflexivity.
Defined.

(* ----------------------------------------------------------------- *)
(** ** [analyze_feedback]: the rows of a table *)

Section TableRun.
Import CategoryMaker.

Variable client : service.
Variable cfg : config.




End TableRun.



(* ----------------------------------------------------------------- *)
(** ** [collect_categories]: rows that fit the limit *)

Section Fitting.
Import Thematic.

Variable max : Z.
Hypothesis max_not_negative : (0 <= max)%Z.

Lemma categories_fitting_invariant column :
  (forall text, In (Some text) column ->
                (Z.of_nat (length (parse_categories text)) <= max)%Z) ->
  let st := fold_left (categories_step max) column start in
  current_count st = Z.of_nat (length (current_batch st))
  /\ Forall (proper_batch max) (batches st)
  /\ (Z.of_nat (length (current_batch st)) <= max)%Z.
Proof.
  intros Hfit.
  assert (H : let st := fold_left (categories_step max) column start in
              (forall text, In (Some text) column ->
                 (Z.of_nat (length (parse_categories text)) <= max)%Z) ->
              current_count st = Z.of_nat (length (current_batch st))
              /\ Forall (proper_batch max) (batches st)
              /\ (Z.of_nat (length (current_batch st)) <= max)%Z);
    [|exact (H Hfit)].
  clear Hfit.
  apply (fold_left_prefix_inv (categories_step max)
           (fun pre st =>
              (forall text, In (Some text) pre ->
                 (Z.of_nat (length (parse_categories text)) <= max)%Z) ->
              current_count st = Z.of_nat (length (current_batch st))
              /\ Forall (proper_batch max) (batches st)
              /\ (Z.of_nat (length (current_batch st)) <= max)%Z)).
  - intros _. simpl. split; [reflexivity|]. split; [constructor | lia].
  - intros pre cell st IH Hfit.
    destruct IH as (Hc & Hb & Hcur).
    { intros text Hin. apply Hfit, in_app_iff. now left. }
    destruct cell as [text|]; simpl; [|now split].
    assert (Htext : (Z.of_nat (length (parse_categories text)) <= max)%Z).
    { apply Hfit, in_app_iff. right. now left. }
    destruct (_ >? max)%Z eqn:Hover; simpl.
    + rewrite Z.gtb_ltb in Hover. apply Z.ltb_lt in Hover.
      split; [lia|]. split; [|exact Htext].
      apply Forall_app. split; [exact Hb|].
      constructor; [|constructor]. split; [|exact Hcur].
      intros Hnil. rewrite Hnil in Hc. simpl in Hc. lia.
    + rewrite Z.gtb_ltb in Hover. apply Z.ltb_ge in Hover.
      rewrite length_app. split; [lia|]. split; [exact Hb | lia].
Qed.

End Fitting.

(** X18.  Batching by categories when every row fits: if no row has more
    categories than the limit, every batch that [collect_categories]
    returns is within the limit and none is empty. *)
Theorem collect_by_categories_fitting_rows (max_batch_size : Z)
    (column : list (option string)) (b : Thematic.batch) :
  (0 <= max_batch_size)%Z ->
  (forall text,
      In (Some text) column ->
      (Z.of_nat (length (Thematic.parse_categories text))
       <= max_batch_size)%Z) ->
  In b (Thematic.collect_categories "categories" max_batch_size column) ->
  b <> [] /\ (Z.of_nat (length b) <= max_batch_size)%Z.
Proof.
  intros Hmax Hfit Hin.
  destruct (categories_fitting_invariant max_batch_size Hmax column Hfit)
    as (_ & Hb & Hcur).
  unfold Thematic.collect_categories, Thematic.finish in Hin.
  simpl in Hin. rewrite Forall_forall in Hb.
  destruct (Thematic.current_batch _) eqn:E in Hin.
  - now apply Hb.
  - rewrite <- E in Hin. apply in_app_iff in Hin.
    destruct Hin as [Hin | [<- | []]]; [now apply Hb|].
    split; [|exact Hcur]. rewrite E. discriminate.
Qed.

Lemma collect_by_categories_fitting_rows_witness :
  ["c"; "d"] <> [] /\ (Z.of_nat (length ["c"; "d"]) <= 3)%Z.
Proof.
  apply (collect_by_categories_fitting_rows 3 [Some "a;b"; Some "c;d"]).
  - lia.
  - intros text [Heq | [Heq | []]]; inversion Heq; subst; vm_compute;
      discriminate.
  - vm_compute. auto.
Defined.
